(** * Stroke triage model: severity scores, outcome states and the
      convergence-driven simulation loop.

    Shallow embedding of [stroke/severity.py] and [stroke/stroke_model.py].

    Numbers.  Python's [float] is IEEE 754 binary64.  The development carries
    two readings of the arithmetic:
    - the exact reading, over [Q] (and over [R] where [np.exp] occurs), in
      which every quantified statement is proved;
    - the binary64 reading, over Rocq's primitive floats (module [B64]), used
      to evaluate the very same expressions at concrete inputs, rounding
      included.
    Exceptions are explicit: a fallible call returns a [result]. *)

From Stdlib Require Import ZArith QArith Qabs Qminmax Qpower Qreals Reals Psatz.
From Stdlib Require Import Floats.
From stdpp Require Import base option list strings pretty gmap.

Set Warnings "-inexact-float".

(** ** Python exceptions *)

Inductive exn : Type :=
| ValueError
| TypeError
| OverflowError
| ZeroDivisionError
| UnboundLocalError.

Inductive result (A : Type) : Type :=
| Ok (a : A)
| Raise (e : exn).
Arguments Ok {A} a.
Arguments Raise {A} e.

#[global] Instance result_ret : MRet result := fun A a => Ok a.
#[global] Instance result_bind : MBind result := fun A B k m =>
  match m with
  | Ok a => k a
  | Raise e => Raise e
  end.


(** ** Comparisons on exact numbers *)

Open Scope Q_scope.

Definition Qlt_bool (x y : Q) : bool := negb (Qle_bool y x).

(** ** [severity.py]: the RACE and NIHSS severity classes

    Every severity object is an instance of [RACE] (class [NIHSS] derives
    from it and only replaces the constructor); it carries the attributes
    [_score] and [_NIHSS]. *)

Record RACE : Type := mkRACE { _score : Q; _NIHSS : Q }.

(** [RACE._get_NIHSS] *)
Definition _get_NIHSS (score : Q) : Q :=
  if Qeq_bool score 0 then 1 else -0.39 + 2.39 * score.

(** The [score] setter, which is all of [RACE.__init__]. *)
Definition RACE_init (score : Q) : result RACE :=
  if Qlt_bool score 0 || Qlt_bool 9 score then Raise ValueError
  else Ok {| _score := score; _NIHSS := _get_NIHSS score |}.

(** [NIHSS._get_RACE_score] *)
Definition _get_RACE_score (score : Q) : Q :=
  let race := if Qle_bool score 1 then 0 else (score + 0.39) / 2.39 in
  if Qlt_bool 9 race then 0 else race.

(** [NIHSS.__init__] *)
Definition NIHSS_init (score : Q) : result RACE :=
  if Qlt_bool score 0 || Qlt_bool 42 score then Raise ValueError
  else RACE_init (_get_RACE_score score).

(** The read-only properties. *)
Definition NIHSS (self : RACE) : Q := _NIHSS self.
Definition score (self : RACE) : Q := _score self.

(** A severity is validly constructed when one of the two constructors
    returned it. *)
Definition constructed (self : RACE) : Prop :=
  (exists r, RACE_init r = Ok self) \/ (exists s, NIHSS_init s = Ok self).

(** ** numpy values

    A numpy float is a finite number, an infinity or NaN.  Division by zero
    yields an infinity or NaN (with a warning), never an exception; every
    comparison with NaN is false.  The sign of zero is not modelled. *)

Inductive npfloat : Type :=
| Fin (q : Q)
| Inf (negative : bool)
| NaN.

Definition Qneg_bool (q : Q) : bool := Qlt_bool q 0.

Definition np_isnan (x : npfloat) : bool :=
  match x with NaN => true | _ => false end.

Definition np_add (x y : npfloat) : npfloat :=
  match x, y with
  | NaN, _ | _, NaN => NaN
  | Fin a, Fin b => Fin (a + b)
  | Inf s, Fin _ | Fin _, Inf s => Inf s
  | Inf s, Inf s' => if Bool.eqb s s' then Inf s else NaN
  end.

Definition np_mul (x y : npfloat) : npfloat :=
  match x, y with
  | NaN, _ | _, NaN => NaN
  | Fin a, Fin b => Fin (a * b)
  | Inf s, Fin a | Fin a, Inf s =>
      if Qeq_bool a 0 then NaN else Inf (xorb s (Qneg_bool a))
  | Inf s, Inf s' => Inf (xorb s s')
  end.

Definition np_div (x y : npfloat) : npfloat :=
  match x, y with
  | NaN, _ | _, NaN => NaN
  | Fin a, Fin b =>
      if Qeq_bool b 0
      then (if Qeq_bool a 0 then NaN else Inf (Qneg_bool a))
      else Fin (a / b)
  | Fin _, Inf _ => Fin 0
  | Inf s, Fin b => Inf (xorb s (Qneg_bool b))
  | Inf _, Inf _ => NaN
  end.

Definition np_neg (x : npfloat) : npfloat :=
  match x with
  | NaN => NaN
  | Fin a => Fin (- a)
  | Inf s => Inf (negb s)
  end.

Definition np_sub (x y : npfloat) : npfloat := np_add x (np_neg y).

Definition np_lt (x y : npfloat) : bool :=
  match x, y with
  | NaN, _ | _, NaN => false
  | Fin a, Fin b => Qlt_bool a b
  | Inf s, Fin _ => s
  | Fin _, Inf s => negb s
  | Inf s, Inf s' => s && negb s'
  end.

(** [np.where(c, x, y)] on one element. *)
Definition np_where {A : Type} (c : bool) (x y : A) : A := if c then x else y.

(** ** [severity.py]: outcome formulas of class [Severity] *)

(** [Severity.p_good_outcome_no_reperfusion] *)
Definition p_good_outcome_no_reperfusion (self : RACE) : Q :=
  if Qle_bool 20 (NIHSS self) then 0.05
  else (-0.0464 * NIHSS self) + 1.0071.

(** [Severity.p_reperfusion_endovascular] *)
Definition p_reperfusion_endovascular (self : RACE) : Q := 0.71.

(** [Severity.p_early_reperfusion_thrombolysis], on one element. *)
Definition p_early_reperfusion_thrombolysis (self : RACE) (time_to_groin : Q) : Q :=
  0.18 * Qmin 70 time_to_groin / 70.

(** Python's [/] on two floats: a zero divisor raises. *)
Definition py_div (x y : Q) : result Q :=
  if Qeq_bool y 0 then Raise ZeroDivisionError else Ok (x / y).

(** The local [baseline_prob] of [p_good_outcome_ais_no_lvo]. *)
Definition baseline_prob (self : RACE) : Q :=
  0.001 * NIHSS self ^ 2 - 0.0615 * NIHSS self + 1.

(** The local [odds_ratio] of [p_good_outcome_ais_no_lvo], on one element. *)
Definition odds_ratio (time_onset_tpa : npfloat) : npfloat :=
  np_add (np_mul (Fin (-0.0031)) time_onset_tpa) (Fin 2.068).

Section TimeLimit.

(** [constants.time_limit_tpa()]: the module [constants] is not part of the
    sources at hand; its value is a parameter (the docstring of
    [p_good_outcome_ais_no_lvo] speaks of 270 minutes). *)
Variable time_limit_tpa : Q.

(** [Severity.p_good_outcome_ais_no_lvo].  [self.NIHSS] is a Python scalar,
    so the first division is Python's and raises on a zero divisor;
    [time_onset_tpa] is a numpy array, so everything that depends on it is
    computed elementwise with numpy's rules, both branches of [np.where]
    eagerly. *)
Definition p_good_outcome_ais_no_lvo (self : RACE)
    (time_onset_tpa : list npfloat) : result (list npfloat) :=
  let baseline_prob := baseline_prob self in
  let odds_ratio := odds_ratio <$> time_onset_tpa in
  baseline_prob_to_odds ← py_div baseline_prob (1 - baseline_prob);
  let new_odds := np_mul (Fin baseline_prob_to_odds) <$> odds_ratio in
  let adjusted_prob :=
    (fun o => np_div o (np_add (Fin 1) o)) <$> new_odds in
  Ok (zip_with
        (fun t adj =>
           np_where (np_isnan t) NaN
             (np_where (np_lt t (Fin time_limit_tpa)) adj (Fin baseline_prob)))
        time_onset_tpa adjusted_prob).

End TimeLimit.

(** Modelled from the spec: [constants.States] is not among the sources; the
    spec fixes seven outcome states, mRS 0 through 6 (mRS 6 is death), which
    index the last axis of the state tensor. *)
Module States.
Definition MRS_0 : nat := 0.
Definition MRS_1 : nat := 1.
Definition MRS_2 : nat := 2.
Definition MRS_3 : nat := 3.
Definition MRS_4 : nat := 4.
Definition MRS_5 : nat := 5.
Definition MRS_6 : nat := 6.
Definition NUMBER_OF_STATES : nat := 7.
End States.

#[global] Instance Q_inhabited : Inhabited Q := populate 0.
#[global] Instance npfloat_inhabited : Inhabited npfloat := populate (Fin 0).

(** The mortality constant written into [states[:, :, MRS_6]]. *)
Definition p_death (self : RACE) : Q :=
  np_where (Qlt_bool (NIHSS self) 7) 0.042
    (np_where (Qlt_bool (NIHSS self) 13) 0.139
       (np_where (Qlt_bool (NIHSS self) 21) 0.316 0.535)).

(** What [break_up_ais_patients] writes along the last axis for one
    (sample, hospital) entry [p] of [p_good_outcome], in the order of the
    source's slice assignments.  The entry is a numpy value: the array may
    hold NaN, which [p_good_outcome_ais_no_lvo] returns for an unknown
    time. *)
Definition break_up_cell (self : RACE) (p : npfloat) : list npfloat :=
  let states := replicate States.NUMBER_OF_STATES (Fin 0) in
  let states := <[States.MRS_6 := Fin (p_death self)]> states in
  let states := <[States.MRS_0 := np_mul (Fin 0.205627706) p]> states in
  let states := <[States.MRS_1 := np_mul (Fin 0.341991342) p]> states in
  let states := <[States.MRS_2 := np_mul (Fin 0.452380952) p]> states in
  let p_bad := np_sub (np_sub (Fin 1) p) (states !!! States.MRS_6) in
  let states := <[States.MRS_3 := np_mul (Fin 0.35678392) p_bad]> states in
  let states := <[States.MRS_4 := np_mul (Fin 0.432160804) p_bad]> states in
  let states := <[States.MRS_5 := np_mul (Fin 0.211055276) p_bad]> states in
  states.

(** [Severity.break_up_ais_patients]: [p_good_outcome] has shape
    (n_samples, n_hospitals), the result (n_samples, n_hospitals, 7). *)
Definition break_up_ais_patients (self : RACE)
    (p_good_outcome : list (list npfloat)) : list (list (list npfloat)) :=
  (fun row : list npfloat => break_up_cell self <$> row) <$> p_good_outcome.

(** Sum of a list of exact numbers. *)
Definition Qsum (l : list Q) : Q := foldr Qplus 0 l.

(** numpy's sum of the entries of a cell: NaN as soon as one entry is. *)
Definition np_sum (l : list npfloat) : npfloat := foldr np_add (Fin 0) l.

(** *** Formulas with [np.exp], over the reals *)

(** [Severity.p_good_outcome_post_evt_success], on one element. *)
Definition p_good_outcome_post_evt_success (self : RACE)
    (time_onset_reperfusion : Q) : R :=
  let beta := -0.00879544 - 9.01419716e-05 * time_onset_reperfusion in
  exp (Q2R (beta * NIHSS self)).

(** The local function [p_lvo_logistic_helper] of [prob_LVO_given_AIS]. *)
Definition p_lvo_logistic_helper (self : RACE) (b0 b1 : Q) : R :=
  (1 / (1 + exp (Q2R (- b0 - b1 * score self))))%R.

(** numpy's global generator: the sequence of numbers in [0, 1) it is going
    to hand out. *)
Definition rng : Type := nat -> R.

Definition unit_rng (g : rng) : Prop := forall i, (0 <= g i < 1)%R.

(** [np.random.random_sample(n)] *)
Definition random_sample (n : nat) (g : rng) : list R * rng :=
  (g <$> seq 0 n, fun i => g (n + i)%nat).

(** [np.random.uniform(low, high, n)]: [low + (high - low) * random_sample(n)]. *)
Definition np_random_uniform (low high : R) (n : nat) (g : rng) : list R * rng :=
  let '(us, g') := random_sample n g in
  ((fun u => (low + (high - low) * u)%R) <$> us, g').

(** [RACE.prob_LVO_given_AIS]; the result has shape (n, 1). *)
Definition prob_LVO_given_AIS (self : RACE) (n : nat) (add_uncertainty : bool)
    (g : rng) : list (list R) * rng :=
  let '(p_lvo, g') :=
    if negb add_uncertainty
    then (replicate n (p_lvo_logistic_helper self (-2.9297) 0.5533), g)
    else
      let lower := p_lvo_logistic_helper self (-3.6526) 0.4141 in
      let upper := p_lvo_logistic_helper self (-2.2067) 0.6925 in
      np_random_uniform lower upper n g in
  ((fun x => [x]) <$> p_lvo, g').

(** ** The conversions in binary64

    The same expressions over primitive floats: [+], [-], [*] and [/] round
    to nearest, ties to even, as CPython's do, and a decimal literal denotes
    the nearest binary64 number in both languages. *)
Module B64.
Open Scope float_scope.

Definition _get_NIHSS (score : float) : float :=
    if score =? 0 then 1 else -0.39 + 2.39 * score.

Definition RACE_init (score : float) : result (float * float) :=
    if (score <? 0) || (9 <? score) then Raise ValueError
    else Ok (score, _get_NIHSS score).

Definition _get_RACE_score (score : float) : float :=
    let race := if score <=? 1 then 0 else (score + 0.39) / 2.39 in
    if 9 <? race then 0 else race.

Definition NIHSS_init (score : float) : result (float * float) :=
    if (score <? 0) || (42 <? score) then Raise ValueError
    else RACE_init (_get_RACE_score score).

  (** The derived [NIHSS] property of a constructed severity. *)
Definition NIHSS (self : float * float) : float := snd self.

  (** [baseline_prob] of [p_good_outcome_ais_no_lvo]; the square
      [nihss ** 2] is written as the product [nihss * nihss]. *)
Definition baseline_prob (nihss : float) : float :=
    0.001 * (nihss * nihss) - 0.0615 * nihss + 1.

(** [Severity.p_good_outcome_no_reperfusion] on the derived NIHSS. *)
Definition p_good_outcome_no_reperfusion (nihss : float) : float :=
    if 20 <=? nihss then 0.05 else (-0.0464 * nihss) + 1.0071.

(** Python's [/] on two floats. *)
Definition py_div (x y : float) : result float :=
    if y =? 0 then Raise ZeroDivisionError else Ok (x / y).

(** [Severity.p_good_outcome_ais_no_lvo] on the derived NIHSS [nihss];
    numpy's elementwise operations on binary64 are the primitive ones. *)
Definition p_good_outcome_ais_no_lvo (time_limit_tpa nihss : float)
      (time_onset_tpa : list float) : result (list float) :=
    let baseline_prob := baseline_prob nihss in
    let odds_ratio := (fun t => -0.0031 * t + 2.068) <$> time_onset_tpa in
    baseline_prob_to_odds ← py_div baseline_prob (1 - baseline_prob);
    let new_odds := (fun r => baseline_prob_to_odds * r) <$> odds_ratio in
    let adjusted_prob := (fun o => o / (1 + o)) <$> new_odds in
    Ok (zip_with
          (fun t adj =>
             if is_nan t then nan
             else if t <? time_limit_tpa then adj else baseline_prob)
          time_onset_tpa adjusted_prob).

(** The mortality constant of [break_up_ais_patients]. *)
Definition p_death (nihss : float) : float :=
    if nihss <? 7 then 0.042
    else if nihss <? 13 then 0.139
    else if nihss <? 21 then 0.316 else 0.535.

(** One cell of [break_up_ais_patients], entries mRS 0 to mRS 6. *)
Definition break_up_cell (nihss p : float) : list float :=
    let d := p_death nihss in
    let p_bad := 1 - p - d in
    [0.205627706 * p; 0.341991342 * p; 0.452380952 * p;
     0.35678392 * p_bad; 0.432160804 * p_bad; 0.211055276 * p_bad; d].

(** Sum of the entries of a cell, left to right. *)
Definition np_sum (l : list float) : float := foldl PrimFloat.add 0 l.

Close Scope float_scope.
End B64.

(** ** The value of a binary64 number

    A finite binary64 number with sign [s], mantissa [m] and exponent [e] is
    the rational [(-1)^s * m * 2^e]; zero, the infinities and NaN are read
    as 0.  [B2Q] reads a primitive float through [Prim2SF]. *)

Definition F2Q (m e : Z) : Q := inject_Z m * 2 ^ e.

Definition SF2Q (f : spec_float) : Q :=
  match f with
  | S754_finite s m e => F2Q (cond_Zopp s (Zpos m)) e
  | _ => 0
  end.

Definition B2Q (x : float) : Q := SF2Q (Prim2SF x).

(** The binary64 numbers that the literals [0.39] and [2.39] denote. *)
Definition c039 : Q := F2Q 7025615418697974 (-54).
Definition c239 : Q := F2Q 5381801554707743 (-51).

(** [located mrs x]: the record [mrs] of a right shift, an integer with a
    round bit and a sticky bit, describes the number [x] in units of the
    last kept digit: equal to the integer, below, at or above the middle of
    it and its successor. *)
Definition located (mrs : shr_record) (x : Q) : Prop :=
  let m := inject_Z (shr_m mrs) in
  match shr_r mrs, shr_s mrs with
  | false, false => x == m
  | false, true => m < x /\ x < m + (1 # 2)
  | true, false => x == m + (1 # 2)
  | true, true => m + (1 # 2) < x /\ x < m + 1
  end.

(** ** [stroke_model.py] *)

(** Modelled from the spec: the module [stroke_center] is not among the
    sources; a hospital object carries an identifier, a centre type tag and a
    travel time that may be unknown (NaN). *)
Module sc.
Inductive CenterType : Type := PRIMARY | COMPREHENSIVE.

#[global] Instance CenterType_eq_dec : EqDecision CenterType.
Proof. solve_decision. Defined.

  (** An identifier is an integer or a string; [str] renders it. *)
Inductive ident : Type :=
  | IdInt (z : Z)
  | IdStr (s : string).

Definition str (i : ident) : string :=
    match i with
    | IdInt z => pretty z
    | IdStr s => s
    end.

Record StrokeCenter : Type := mkCenter {
    center_id : ident;
    center_type : CenterType;
    time : npfloat
  }.
End sc.

(** The values of a travel-time lookup: numbers, strings as read from a
    file, or [None] (which stands for every object the builtin [float]
    rejects with TypeError). *)
Inductive pyval : Type :=
| PyFloat (x : npfloat)
| PyInt (z : Z)
| PyStr (s : string)
| PyNone.

Record StrokeModel (Patient : Type) : Type := mkModel {
  _patient : Patient;
  _hospitals : list sc.StrokeCenter;
  _threshold_ICER : Z
}.
Arguments mkModel {Patient} _ _ _.
Arguments _patient {Patient} _.
Arguments _hospitals {Patient} _.
Arguments _threshold_ICER {Patient} _.

Section StrokeModel.

Context {Patient : Type}.

  (** [StrokeModel.hospitals] *)
Definition hospitals (self : StrokeModel Patient) : list sc.StrokeCenter :=
    filter (fun x => np_isnan (sc.time x) = false) (_hospitals self).

  (** [StrokeModel.primaries] *)
Definition primaries (self : StrokeModel Patient) : list sc.StrokeCenter :=
    filter (fun x => sc.center_type x = sc.PRIMARY) (hospitals self).

  (** [StrokeModel.comprehensives] *)
Definition comprehensives (self : StrokeModel Patient) : list sc.StrokeCenter :=
    filter (fun x => sc.center_type x = sc.COMPREHENSIVE) (hospitals self).

  (** Python's [float] applied to a string: [None] stands for [ValueError]. *)
Variable float_of_str : string -> option npfloat.

  (** The builtin [float] on a lookup value: a string that does not parse
      raises ValueError, an integer that rounds to an infinity raises
      OverflowError, [None] raises TypeError. *)
Definition py_float (v : pyval) : result npfloat :=
    match v with
    | PyFloat x => Ok x
    | PyInt z =>
        if (2 ^ 1024 - 2 ^ 970 <=? Z.abs z)%Z then Raise OverflowError
        else Ok (Fin (inject_Z z))
    | PyStr s =>
        match float_of_str s with
        | Some x => Ok x
        | None => Raise ValueError
        end
    | PyNone => Raise TypeError
    end.

  (** The body of the loop of [set_times], for one [center]: only
      ValueError is caught. *)
Definition set_time (times : gmap string pyval) (center : sc.StrokeCenter)
      : result sc.StrokeCenter :=
    let center_id := sc.str (sc.center_id center) in
    let assign t := sc.mkCenter (sc.center_id center) (sc.center_type center) t in
    match times !! center_id with
    | Some v =>
        match py_float v with
        | Ok x => Ok (assign x)
        | Raise ValueError => Ok (assign NaN)
        | Raise e => Raise e
        end
    | None => Ok (assign NaN)
    end.

  (** The loop of [set_times] over the hospitals, which are updated in
      place: when an exception escapes, the hospitals before the offending
      one carry their new times already and the others are untouched. *)
Fixpoint set_times_loop (times : gmap string pyval)
      (centers : list sc.StrokeCenter) : list sc.StrokeCenter * option exn :=
    match centers with
    | [] => ([], None)
    | center :: rest =>
        match set_time times center with
        | Ok center' =>
            let '(rest', e) := set_times_loop times rest in
            (center' :: rest', e)
        | Raise e => (center :: rest, Some e)
        end
    end.

  (** [StrokeModel.set_times]: the model as the call leaves it, and the
      exception that escaped, if any. *)
Definition set_times (self : StrokeModel Patient) (times : gmap string pyval)
      : StrokeModel Patient * option exn :=
    let '(hs, e) := set_times_loop times (_hospitals self) in
    (mkModel (_patient self) hs (_threshold_ICER self), e).

  (** The lookup values [set_times] copes with: those on which the builtin
      [float] returns or raises ValueError. *)
Definition accepted (v : pyval) : Prop :=
    forall e, py_float v = Raise e -> e = ValueError.

  (** The travel time one completed turn of the loop of [set_times] leaves
      on a centre: the converted value of its entry, NaN where there is no
      entry or the conversion raised ValueError. *)
Definition assigned_time (times : gmap string pyval) (center : sc.StrokeCenter)
      : npfloat :=
    match times !! sc.str (sc.center_id center) with
    | Some v =>
        match py_float v with
        | Ok x => x
        | Raise _ => NaN
        end
    | None => NaN
    end.

End StrokeModel.

(** [StrokeModel.__init__]; [None] for [threshold_ICER] is the default. *)
Definition StrokeModel_init {Patient : Type} (patient : Patient)
    (hospitals : list sc.StrokeCenter) (threshold_ICER : option Z)
    : StrokeModel Patient :=
  mkModel patient hospitals (default 1000000%Z threshold_ICER).

(** *** Frequency tables

    A one-column data frame of binary64 numbers indexed by hospital name.
    The convergence test compares computed numbers with a threshold, so the
    tables are modelled in binary64, with the primitive operations. *)

(** The conversion of an integer column to [float64]: the nearest binary64
    number. *)
Definition of_int (z : Z) : float :=
  SF2Prim (binary_normalize prec emax z 0 false).

(** [df - old]: pandas aligns the two frames on the union of their indexes
    and fills the rows missing on either side with NaN. *)
Definition df_sub (df old : gmap string float) : gmap string float :=
  merge (fun a b =>
           match a, b with
           | Some x, Some y => Some (PrimFloat.sub x y)
           | None, None => None
           | _, _ => Some PrimFloat.nan
           end) df old.

(** The larger of two values, NaN being skipped. *)
Definition np_fmax (x y : float) : float :=
  if PrimFloat.is_nan x then y
  else if PrimFloat.is_nan y then x
  else if PrimFloat.ltb x y then y else x.

(** [df.max()]: the maximum of the column, NaN skipped; NaN when nothing is
    left. *)
Definition df_max (df : gmap string float) : float :=
  map_fold (fun _ v acc => np_fmax v acc) PrimFloat.nan df.

Definition CONVERGENCE_THRESH : float := 0.01%float.

Section Simulation.

  (** The collaborators that are not among the sources ([times],
      [ais_outcomes], [cohort], [results], [costs]) are parameters. *)
Context {Patient Center Results Markov Times World : Type}.

  (** [str(center)] for a key of [counts_by_center]. *)
Variable str_center : Center -> string.

  (** [markov_results.counts_by_center.items()] *)
Variable counts_by_center : Results -> list (Center * Z).

  (** [costs.Costs.inflate] *)
Variable inflate : Z -> World -> World.

  (** Lines 88 to 96 of [run_new]: draw the timing samples of size [n_sim]
      over the hospitals with valid times, run all strategies, analyse the
      cohort and summarise; the world holds the random generator. *)
Variable simulate :
    Patient -> list sc.StrokeCenter -> Z -> bool -> bool -> bool ->
    World -> (Results * Markov * Times) * World.

  (** [StrokeModel.run]: the same sequence of calls as one iteration of
      [run_new], with the caller's sample size [n]. *)
Definition run (self : StrokeModel Patient) (n : Z)
      (add_time_uncertainty add_lvo_uncertainty fix_performance : bool)
      (w : World) : (Results * Markov * Times) * World :=
    let w := inflate 2016 w in
    simulate (_patient self) (hospitals self) n
             add_time_uncertainty add_lvo_uncertainty fix_performance w.

  (** [StrokeModel._check_convergence] *)
Definition _check_convergence (markov_results : Results) (n_sim : Z)
      (old_df_cbc : option (gmap string float))
      : bool * gmap string float :=
    let cbc : gmap string Z :=
      foldl (fun d kv => <[str_center kv.1 := kv.2]> d) ∅
            (counts_by_center markov_results) in
    let df_cbc :=
      (fun count => PrimFloat.div (of_int count) (of_int n_sim)) <$> cbc in
    match old_df_cbc with
    | None => (false, df_cbc)
    | Some old =>
        (PrimFloat.leb (df_max (PrimFloat.abs <$> df_sub df_cbc old))
                       CONVERGENCE_THRESH,
         df_cbc)
    end.

Definition NRUN_MAX : nat := 20.


  (** One executed iteration of the loop of [run_new]: the sample size it ran
      with, the verdict it got and what it computed. *)
Record iteration : Type := mkIteration {
    it_n_sim : Z;
    it_convergence : bool;
    it_output : Results * Markov * Times
  }.

  (** The state of [run_new] between two iterations. *)
Record loop_state : Type := mkLoop {
    n_sim : Z;
    old_df_cbc : option (gmap string float);
    last_output : option (Results * Markov * Times);
    executed : list iteration;
    stdout : list Z;
    world : World
  }.

  (** The [for c in range(NRUN_MAX)] loop, with its [break]; [stdout]
      collects the sample sizes printed by the [else] branch. *)
Fixpoint run_new_loop (self : StrokeModel Patient)
      (add_time_uncertainty add_lvo_uncertainty fix_performance : bool)
      (cs : list Z) (st : loop_state) : loop_state :=
    match cs with
    | [] => st
    | c :: cs' =>
        let '(out, w) :=
          simulate (_patient self) (hospitals self) (n_sim st)
                   add_time_uncertainty add_lvo_uncertainty fix_performance
                   (world st) in
        let markov_results := out.1.1 in
        let '(convergence, df_cbc) :=
          _check_convergence markov_results (n_sim st) (old_df_cbc st) in
        let n_sim' := (n_sim st + 1000 * (c + 1))%Z in
        let executed' :=
          executed st ++ [mkIteration (n_sim st) convergence out] in
        if convergence
        then mkLoop n_sim' (Some df_cbc) (Some out) executed' (stdout st) w
        else run_new_loop self add_time_uncertainty add_lvo_uncertainty
               fix_performance cs'
               (mkLoop n_sim' (Some df_cbc) (Some out) executed'
                       (stdout st ++ [n_sim']) w)
    end.

  (** [StrokeModel.run_new]; the parameter [n] is not used by the source. *)
Definition run_new (self : StrokeModel Patient) (n : Z)
      (add_time_uncertainty add_lvo_uncertainty fix_performance : bool)
      (w : World) : result (Results * Markov * Times) * loop_state :=
    let w := inflate 2016 w in
    let st :=
      run_new_loop self add_time_uncertainty add_lvo_uncertainty fix_performance
        (Z.of_nat <$> seq 0 NRUN_MAX)
        (mkLoop 5000 None None [] [] w) in
    (match last_output st with
     | Some out => Ok out
     | None => Raise UnboundLocalError
     end, st).


End Simulation.

(** * Properties *)

(** ** Boolean tests and their meaning *)

Lemma Qlt_bool_iff (x y : Q) : Qlt_bool x y = true <-> x < y.
Proof.
  unfold Qlt_bool. rewrite negb_true_iff.
  split.
  - intros H. apply Qnot_le_lt. intros Hle.
    apply Qle_bool_iff in Hle. congruence.
  - intros H. destruct (Qle_bool y x) eqn:E; [|reflexivity].
    apply Qle_bool_iff in E. exfalso. apply (Qlt_not_le _ _ H E).
Qed.

Lemma Qlt_bool_false (x y : Q) : Qlt_bool x y = false <-> y <= x.
Proof.
  unfold Qlt_bool. rewrite negb_false_iff. apply Qle_bool_iff.
Qed.

Lemma Qle_bool_false (x y : Q) : Qle_bool x y = false <-> y < x.
Proof.
  rewrite <- Qlt_bool_iff. unfold Qlt_bool.
  destruct (Qle_bool x y); simpl; intuition congruence.
Qed.

Lemma Qeq_bool_false (x y : Q) : Qeq_bool x y = false <-> ~ x == y.
Proof.
  split.
  - intros H Heq. apply Qeq_bool_iff in Heq. congruence.
  - intros H. destruct (Qeq_bool x y) eqn:E; [|reflexivity].
    apply Qeq_bool_iff in E. contradiction.
Qed.

(** Turn every boolean test of the embedding into its arithmetic meaning. *)
Ltac qtest :=
  repeat match goal with
  | H : Qlt_bool _ _ = true |- _ => apply Qlt_bool_iff in H
  | H : Qlt_bool _ _ = false |- _ => apply Qlt_bool_false in H
  | H : Qle_bool _ _ = true |- _ => apply Qle_bool_iff in H
  | H : Qle_bool _ _ = false |- _ => apply Qle_bool_false in H
  | H : Qeq_bool _ _ = true |- _ => apply Qeq_bool_iff in H
  | H : Qeq_bool _ _ = false |- _ => apply Qeq_bool_false in H
  end.

(** ** The constructors *)

Lemma RACE_init_ok (r : Q) :
  0 <= r -> r <= 9 ->
  RACE_init r = Ok {| _score := r; _NIHSS := _get_NIHSS r |}.
Proof.
  intros H0 H9. unfold RACE_init.
  destruct (Qlt_bool r 0) eqn:E0; qtest; [lra|].
  destruct (Qlt_bool 9 r) eqn:E9; qtest; [lra|].
  reflexivity.
Qed.

Lemma RACE_init_inv (r : Q) (self : RACE) :
  RACE_init r = Ok self ->
  0 <= r /\ r <= 9 /\ self = {| _score := r; _NIHSS := _get_NIHSS r |}.
Proof.
  unfold RACE_init.
  destruct (Qlt_bool r 0) eqn:E0; [discriminate|].
  destruct (Qlt_bool 9 r) eqn:E9; [discriminate|].
  simpl. intros [= <-]. qtest. auto.
Qed.

Lemma get_NIHSS_zero (r : Q) : r == 0 -> _get_NIHSS r = 1.
Proof.
  intros H. unfold _get_NIHSS.
  destruct (Qeq_bool r 0) eqn:E; qtest; [reflexivity|contradiction].
Qed.

Lemma get_NIHSS_nonzero (r : Q) :
  ~ r == 0 -> _get_NIHSS r = -0.39 + 2.39 * r.
Proof.
  intros H. unfold _get_NIHSS.
  destruct (Qeq_bool r 0) eqn:E; qtest; [contradiction|reflexivity].
Qed.

Lemma div_239 (s : Q) : 2.39 * ((s + 0.39) / 2.39) == s + 0.39.
Proof. field. Qed.

Lemma get_RACE_score_low (s : Q) : s <= 1 -> _get_RACE_score s = 0.
Proof.
  intros H. unfold _get_RACE_score.
  destruct (Qle_bool s 1) eqn:E; qtest; [reflexivity|lra].
Qed.

Lemma get_RACE_score_mid (s : Q) :
  1 < s -> s <= 21.12 -> _get_RACE_score s = (s + 0.39) / 2.39.
Proof.
  intros H1 H2. unfold _get_RACE_score.
  destruct (Qle_bool s 1) eqn:E; qtest; [lra|].
  destruct (Qlt_bool 9 _) eqn:E9; qtest; [|reflexivity].
  pose proof (div_239 s). lra.
Qed.

Lemma get_RACE_score_high (s : Q) : 21.12 < s -> _get_RACE_score s = 0.
Proof.
  intros H. unfold _get_RACE_score.
  destruct (Qle_bool s 1) eqn:E; qtest; [lra|].
  destruct (Qlt_bool 9 _) eqn:E9; qtest; [reflexivity|].
  pose proof (div_239 s). lra.
Qed.

Lemma get_RACE_score_range (s : Q) :
  0 <= s -> 0 <= _get_RACE_score s /\ _get_RACE_score s <= 9.
Proof.
  intros H. destruct (Qlt_le_dec 1 s) as [H1|H1].
  - destruct (Qlt_le_dec 21.12 s) as [H2|H2].
    + rewrite get_RACE_score_high by assumption. lra.
    + rewrite get_RACE_score_mid by assumption.
      pose proof (div_239 s). lra.
  - rewrite get_RACE_score_low by assumption. lra.
Qed.

(** ** RACE to NIHSS *)

(** C5 (as amended).  For a RACE score in [0, 9] the constructor succeeds and
    the derived NIHSS is 1 at score 0 and [-0.39 + 2.39 * r] elsewhere.  For
    two accepted scores [r1 <= r2] the derived values are ordered the same
    way unless [r1] is 0 and [r2] lies strictly between 0 and 139/239, where
    the order is reversed; in particular the map is non-decreasing on the
    integer scores 0 to 9. *)
Theorem RACE_NIHSS_order (r1 r2 : Q) :
  0 <= r1 -> r1 <= r2 -> r2 <= 9 ->
  exists s1 s2,
    RACE_init r1 = Ok s1 /\ RACE_init r2 = Ok s2 /\
    (r1 == 0 -> NIHSS s1 == 1) /\
    (~ r1 == 0 -> NIHSS s1 == -0.39 + 2.39 * r1) /\
    (r2 == 0 -> NIHSS s2 == 1) /\
    (~ r2 == 0 -> NIHSS s2 == -0.39 + 2.39 * r2) /\
    ((r1 == 0 -> r2 == 0 \/ 139 # 239 <= r2) -> NIHSS s1 <= NIHSS s2) /\
    (r1 == 0 -> 0 < r2 -> r2 < 139 # 239 -> NIHSS s2 < NIHSS s1) /\
    (forall z1 z2 : Z,
        r1 == inject_Z z1 -> r2 == inject_Z z2 -> NIHSS s1 <= NIHSS s2).
Proof.
  intros H0 H12 H9.
  assert (Hord : (r1 == 0 -> r2 == 0 \/ 139 # 239 <= r2) ->
                 _get_NIHSS r1 <= _get_NIHSS r2).
  { intros Hgap. unfold _get_NIHSS.
    destruct (Qeq_bool r1 0) eqn:E1, (Qeq_bool r2 0) eqn:E2; qtest; lra. }
  exists {| _score := r1; _NIHSS := _get_NIHSS r1 |},
         {| _score := r2; _NIHSS := _get_NIHSS r2 |}.
  split; [apply RACE_init_ok; lra|].
  split; [apply RACE_init_ok; lra|].
  unfold NIHSS; simpl.
  split; [intros H; rewrite get_NIHSS_zero by assumption; reflexivity|].
  split; [intros H; rewrite get_NIHSS_nonzero by assumption; reflexivity|].
  split; [intros H; rewrite get_NIHSS_zero by assumption; reflexivity|].
  split; [intros H; rewrite get_NIHSS_nonzero by assumption; reflexivity|].
  split; [exact Hord|].
  split.
  - intros Hz Hpos Hlt.
    rewrite (get_NIHSS_zero r1) by assumption.
    rewrite (get_NIHSS_nonzero r2) by lra. lra.
  - intros z1 z2 Hz1 Hz2. apply Hord. intros Hz.
    destruct (Z_le_gt_dec z2 0) as [Hle|Hgt].
    + left.
      assert (inject_Z z2 <= inject_Z 0) by (rewrite <- Zle_Qle; lia).
      change (inject_Z 0) with 0 in *. lra.
    + right. rewrite Hz2.
      assert (inject_Z 1 <= inject_Z z2) by (rewrite <- Zle_Qle; lia).
      change (inject_Z 1) with 1 in *. lra.
Qed.

Lemma RACE_NIHSS_order_witness :
  0 <= 0 /\ 0 <= 1 /\ 1 <= 9 /\
  exists s1 s2,
    RACE_init 0 = Ok s1 /\ RACE_init 1 = Ok s2 /\ NIHSS s1 <= NIHSS s2.
Proof.
  assert (H0 : 0 <= 0) by (unfold Qle; simpl; lia).
  assert (H1 : 0 <= 1) by (unfold Qle; simpl; lia).
  assert (H9 : 1 <= 9) by (unfold Qle; simpl; lia).
  destruct (RACE_NIHSS_order 0 1 H0 H1 H9)
    as (s1 & s2 & I1 & I2 & _ & _ & _ & _ & Hord & _).
  repeat split; try assumption.
  exists s1, s2. repeat split; try assumption.
  apply Hord. intros _. right. unfold Qle; simpl; lia.
Defined.

(** C5 (counterexample).  The scores 0 and 0.5 are both accepted, 0 <= 0.5,
    and yet the NIHSS derived from 0.5 is below the one derived from 0. *)
Lemma RACE_NIHSS_not_monotone :
  exists s1 s2,
    RACE_init 0 = Ok s1 /\ RACE_init 0.5 = Ok s2 /\
    0 <= 0.5 /\ NIHSS s2 < NIHSS s1.
Proof.
  exists {| _score := 0; _NIHSS := _get_NIHSS 0 |},
         {| _score := 0.5; _NIHSS := _get_NIHSS 0.5 |}.
  repeat split; try reflexivity; vm_compute; congruence.
Qed.

(** ** NIHSS to RACE *)

(** C6.  For an NIHSS score in [0, 42] the constructor succeeds; the RACE
    score it stores is 0 when [s <= 1], [(s + 0.39) / 2.39] when that value
    is at most 9, and 0 again when it exceeds 9, which happens exactly for
    [s > 21.12]. *)
Theorem NIHSS_init_RACE_score (s : Q) :
  0 <= s -> s <= 42 ->
  exists self,
    NIHSS_init s = Ok self /\
    (s <= 1 -> score self == 0) /\
    (1 < s -> (s + 0.39) / 2.39 <= 9 -> score self == (s + 0.39) / 2.39) /\
    (1 < s -> 9 < (s + 0.39) / 2.39 -> score self == 0) /\
    (9 < (s + 0.39) / 2.39 <-> 21.12 < s).
Proof.
  intros H0 H42.
  pose proof (div_239 s) as Hd.
  pose proof (get_RACE_score_range s H0) as [Hr0 Hr9].
  exists {| _score := _get_RACE_score s;
            _NIHSS := _get_NIHSS (_get_RACE_score s) |}.
  split.
  - unfold NIHSS_init.
    destruct (Qlt_bool s 0) eqn:E0; qtest; [lra|].
    destruct (Qlt_bool 42 s) eqn:E42; qtest; [lra|].
    simpl. apply RACE_init_ok; assumption.
  - unfold score; simpl.
    split; [intros H; rewrite get_RACE_score_low by assumption; reflexivity|].
    split; [intros H1 H9; rewrite get_RACE_score_mid by lra; reflexivity|].
    split; [intros H1 H9; rewrite get_RACE_score_high by lra; reflexivity|].
    split; intros H; lra.
Qed.

Lemma NIHSS_init_RACE_score_witness :
  0 <= 42 /\ 42 <= 42 /\
  exists self, NIHSS_init 42 = Ok self /\ score self == 0.
Proof.
  assert (H0 : 0 <= 42) by (unfold Qle; simpl; lia).
  assert (H42 : 42 <= 42) by (unfold Qle; simpl; lia).
  destruct (NIHSS_init_RACE_score 42 H0 H42) as (self & I & _ & _ & Hhigh & _).
  repeat split; try assumption.
  exists self. split; [assumption|].
  apply Hhigh; unfold Qlt; simpl; lia.
Defined.

(** The boundary cases named by the spec. *)
Example NIHSS_init_0 : NIHSS_init 0 = Ok {| _score := 0; _NIHSS := 1 |}.
Proof. reflexivity. Qed.

Example NIHSS_init_1 : NIHSS_init 1 = Ok {| _score := 0; _NIHSS := 1 |}.
Proof. reflexivity. Qed.

Example NIHSS_init_42 : NIHSS_init 42 = Ok {| _score := 0; _NIHSS := 1 |}.
Proof. reflexivity. Qed.

(** ** The round trip NIHSS to RACE to NIHSS *)

(** In exact arithmetic the severity built from an NIHSS score [s] with
    [1 < s <= 21.12] reports the NIHSS [s], because
    [-0.39 + 2.39 * ((s + 0.39) / 2.39) = s], and for [s <= 1] or
    [s > 21.12] it reports 1. *)
Lemma NIHSS_round_trip_exact (s : Q) :
  0 <= s -> s <= 42 ->
  exists self,
    NIHSS_init s = Ok self /\
    (1 < s -> s <= 21.12 -> NIHSS self == s) /\
    (s <= 1 \/ 21.12 < s -> NIHSS self == 1).
Proof.
  intros H0 H42.
  pose proof (div_239 s) as Hd.
  pose proof (get_RACE_score_range s H0) as [Hr0 Hr9].
  exists {| _score := _get_RACE_score s;
            _NIHSS := _get_NIHSS (_get_RACE_score s) |}.
  split.
  - unfold NIHSS_init.
    destruct (Qlt_bool s 0) eqn:E0; qtest; [lra|].
    destruct (Qlt_bool 42 s) eqn:E42; qtest; [lra|].
    simpl. apply RACE_init_ok; assumption.
  - unfold NIHSS; simpl. split.
    + intros H1 H2. rewrite get_RACE_score_mid by assumption.
      rewrite get_NIHSS_nonzero; [lra|].
      intros Hz. rewrite Hz in Hd. lra.
    + intros [H|H].
      * rewrite get_RACE_score_low by assumption. reflexivity.
      * rewrite get_RACE_score_high by assumption. reflexivity.
Qed.

(** *** Rounding to nearest even in binary64

    The operations of [SpecFloat] on two finite numbers round the exact
    result to 53 digits.  The lemmas below follow the right shift and
    the rounding of the mantissa and bound the relative error of a sum,
    a product and a quotient whose result is a positive normal number
    by [2^-53]. *)

Open Scope Z_scope.

Lemma digits2_pos_log2 (p : positive) :
  Zpos (digits2_pos p) = Z.log2 (Zpos p) + 1.
Proof.
  assert (H : forall q, Zpos (digits2_pos q) = Zpos (Pos.size q)).
  { induction q; simpl; rewrite ?Pos2Z.inj_succ; congruence. }
  destruct p; simpl; rewrite ?Pos2Z.inj_succ, ?H; lia.
Qed.

Lemma digits2_pos_bounds (p : positive) :
  2 ^ (Zpos (digits2_pos p) - 1) <= Zpos p < 2 ^ Zpos (digits2_pos p).
Proof.
  rewrite digits2_pos_log2.
  replace (Z.log2 (Zpos p) + 1 - 1) with (Z.log2 (Zpos p)) by lia.
  replace (Z.log2 (Zpos p) + 1) with (Z.succ (Z.log2 (Zpos p))) by lia.
  apply Z.log2_spec. lia.
Qed.

Lemma digits2_pos_unique (p : positive) (d : Z) :
  2 ^ (d - 1) <= Zpos p < 2 ^ d -> 1 <= d -> Zpos (digits2_pos p) = d.
Proof.
  intros H Hd. rewrite digits2_pos_log2.
  rewrite (Z.log2_unique (Zpos p) (d - 1)); [lia|lia|].
  replace (Z.succ (d - 1)) with d by lia. exact H.
Qed.

Close Scope Z_scope.

Lemma inject_Z_xO (p : positive) :
  inject_Z (Zpos p~0) == 2 * inject_Z (Zpos p).
Proof. unfold Qeq. simpl. lia. Qed.

Lemma inject_Z_xI (p : positive) :
  inject_Z (Zpos p~1) == 2 * inject_Z (Zpos p) + 1.
Proof. unfold Qeq. simpl. lia. Qed.

Lemma shr_1_located (mrs : shr_record) (x y : Q) :
  (0 <= shr_m mrs)%Z -> located mrs x -> x == 2 * y ->
  located (shr_1 mrs) y /\ (0 <= shr_m (shr_1 mrs))%Z /\
  shr_m (shr_1 mrs) = (shr_m mrs / 2)%Z.
Proof.
  destruct mrs as [m r s]. simpl. intros Hm Hl Hxy.
  destruct m as [|p|p]; [|destruct p as [p|p|]|exfalso; apply Hm; reflexivity];
    cbn [shr_1 shr_m].
  - split; [|split; [lia|reflexivity]].
    destruct r, s; unfold located in *; simpl in *;
      change (inject_Z 0) with 0 in *; lra.
  - split; [|split; [lia|]].
    + pose proof (inject_Z_xI p) as E.
      destruct r, s; unfold located in *; simpl in *; lra.
    + change (Zpos p~1) with (2 * Zpos p + 1)%Z.
      apply Z.div_unique with 1%Z; lia.
  - split; [|split; [lia|]].
    + pose proof (inject_Z_xO p) as E.
      destruct r, s; unfold located in *; simpl in *; lra.
    + change (Zpos p~0) with (2 * Zpos p)%Z.
      apply Z.div_unique with 0%Z; lia.
  - split; [|split; [lia|reflexivity]].
    destruct r, s; unfold located in *; simpl in *;
      change (inject_Z 1) with 1 in *; change (inject_Z 0) with 0; lra.
Qed.

Lemma iter_shr_1_located (p : positive) :
  forall (mrs : shr_record) (x y : Q),
    (0 <= shr_m mrs)%Z -> located mrs x ->
    x == inject_Z (2 ^ Zpos p) * y ->
    located (SpecFloat.iter_pos shr_1 p mrs) y /\
    (0 <= shr_m (SpecFloat.iter_pos shr_1 p mrs))%Z /\
    shr_m (SpecFloat.iter_pos shr_1 p mrs) = (shr_m mrs / 2 ^ Zpos p)%Z.
Proof.
  induction p as [p IH|p IH|]; intros mrs x y Hm Hl Hxy.
  - (* 2p + 1 *)
    simpl SpecFloat.iter_pos.
    set (a := (2 ^ Zpos p)%Z) in *.
    assert (Ha : (0 < a)%Z) by (apply Z.pow_pos_nonneg; lia).
    assert (Hp : (2 ^ Zpos p~1 = 2 * (a * a))%Z).
    { change (Zpos p~1) with (2 * Zpos p + 1)%Z.
      rewrite Z.pow_add_r, Z.pow_1_r, Z.pow_twice_r by lia. subst a. lia. }
    rewrite Hp in Hxy. rewrite !inject_Z_mult in Hxy.
    destruct (shr_1_located mrs x (inject_Z a * (inject_Z a * y)) Hm Hl)
      as (H1 & H1' & H1''); [rewrite Hxy; change (inject_Z 2) with 2; ring|].
    destruct (IH _ _ (inject_Z a * y) H1' H1 (Qeq_refl _))
      as (H2 & H2' & H2'').
    destruct (IH _ _ y H2' H2 (Qeq_refl _)) as (H3 & H3' & H3'').
    split; [exact H3|]. split; [exact H3'|].
    rewrite H3'', H2'', H1'', Hp. fold a.
    rewrite !Z.div_div by lia. reflexivity.
  - simpl SpecFloat.iter_pos.
    set (a := (2 ^ Zpos p)%Z) in *.
    assert (Ha : (0 < a)%Z) by (apply Z.pow_pos_nonneg; lia).
    assert (Hp : (2 ^ Zpos p~0 = a * a)%Z).
    { change (Zpos p~0) with (2 * Zpos p)%Z.
      rewrite Z.pow_twice_r. reflexivity. }
    rewrite Hp in Hxy. rewrite !inject_Z_mult in Hxy.
    destruct (IH mrs x (inject_Z a * y) Hm Hl) as (H2 & H2' & H2'');
      [rewrite Hxy; ring|].
    destruct (IH _ _ y H2' H2 (Qeq_refl _)) as (H3 & H3' & H3'').
    split; [exact H3|]. split; [exact H3'|].
    rewrite H3'', H2'', Hp. fold a.
    rewrite !Z.div_div by lia. reflexivity.
  - simpl SpecFloat.iter_pos. apply (shr_1_located mrs x y Hm Hl).
    rewrite Hxy. reflexivity.
Qed.

Lemma round_nearest_even_located (mrs : shr_record) (x : Q) :
  located mrs x ->
  let m1 := round_nearest_even (shr_m mrs) (loc_of_shr_record mrs) in
  (m1 = shr_m mrs \/ m1 = (shr_m mrs + 1)%Z) /\
  - (1 # 2) <= inject_Z m1 - x /\ inject_Z m1 - x <= 1 # 2.
Proof.
  destruct mrs as [m r s]. unfold located.
  cbn [round_nearest_even loc_of_shr_record shr_m shr_r shr_s].
  pose proof (inject_Z_plus m 1) as E. change (inject_Z 1) with 1 in E.
  destruct r, s; cbn [round_nearest_even loc_of_shr_record];
    intros H.
  - split; [now right|]. rewrite E. lra.
  - destruct (Z.even m); (split; [auto|]); rewrite ?E; lra.
  - split; [now left|]. lra.
  - split; [now left|]. lra.
Qed.

Lemma located_eq (mrs : shr_record) (x y : Q) :
  x == y -> located mrs x -> located mrs y.
Proof.
  intros E. unfold located. destruct (shr_r mrs), (shr_s mrs); simpl; lra.
Qed.

Lemma shr_located (mrs : shr_record) (e n : Z) (x y : Q) :
  (0 <= n)%Z -> (0 <= shr_m mrs)%Z -> located mrs x ->
  x == inject_Z (2 ^ n) * y ->
  exists mrs',
    shr mrs e n = (mrs', (e + n)%Z) /\
    located mrs' y /\ (0 <= shr_m mrs')%Z /\
    shr_m mrs' = (shr_m mrs / 2 ^ n)%Z.
Proof.
  intros Hn Hm Hl Hxy. destruct n as [|p|p]; [| |lia].
  - exists mrs. unfold shr. rewrite Z.add_0_r. split; [reflexivity|].
    split; [|split; [exact Hm|]].
    + apply (located_eq mrs x); [|exact Hl].
      rewrite Hxy. change (inject_Z (2 ^ 0)) with 1. ring.
    + change (2 ^ 0)%Z with 1%Z. symmetry. apply Z.div_1_r.
  - exists (SpecFloat.iter_pos shr_1 p mrs). unfold shr. split; [reflexivity|].
    apply (iter_shr_1_located p mrs x y Hm Hl Hxy).
Qed.

Lemma shr_record_of_loc_m (m : Z) (l : location) :
  shr_m (shr_record_of_loc m l) = m.
Proof. destruct l as [|[]]; reflexivity. Qed.

Lemma emin_64 : SpecFloat.emin prec emax = (-1074)%Z.
Proof. reflexivity. Qed.

Lemma shr_fexp_normal (m : positive) (e : Z) (l : location) :
  (53 <= Zpos (digits2_pos m))%Z ->
  (-1074 <= e + Zpos (digits2_pos m) - 53)%Z ->
  shr_fexp prec emax (Zpos m) e l
  = shr (shr_record_of_loc (Zpos m) l) e (Zpos (digits2_pos m) - 53).
Proof.
  intros Hd He. unfold shr_fexp, fexp. rewrite emin_64.
  cbn [Zdigits2]. change prec with 53%Z. f_equal. lia.
Qed.

Lemma pow2_split (a b : Z) :
  (0 <= a)%Z -> (0 <= b)%Z -> (2 ^ (a + b) = 2 ^ a * 2 ^ b)%Z.
Proof. intros. apply Z.pow_add_r; assumption. Qed.

(** Rounding a positive number, given by an integer [m] of at least 53
    digits and the place of the number between [m] and [m + 1], to 53
    digits: the result is a normal number within a relative error of
    [2^-53]. *)
Lemma binary_round_aux_normal (sx : bool) (m : positive) (e : Z)
    (l : location) (x : Q) :
  (53 <= Zpos (digits2_pos m))%Z ->
  (-1074 <= e + Zpos (digits2_pos m) - 53)%Z ->
  (e + Zpos (digits2_pos m) - 53 < 971)%Z ->
  located (shr_record_of_loc (Zpos m) l) x ->
  exists (m' : positive) (k : Z),
    binary_round_aux prec emax sx (Zpos m) e l = S754_finite sx m' (e + k) /\
    (0 <= k)%Z /\
    (Zpos (digits2_pos m) - 53 <= k <= Zpos (digits2_pos m) - 52)%Z /\
    (2 ^ 52 <= Zpos m' < 2 ^ 53)%Z /\
    Qabs (inject_Z (Zpos m' * 2 ^ k) - x) * inject_Z (2 ^ 53) <= x.
Proof.
  intros Hd Hlo Hhi Hl.
  pose proof (digits2_pos_bounds m) as Hm.
  unfold binary_round_aux. rewrite (shr_fexp_normal m e l Hd Hlo).
  remember (Zpos (digits2_pos m)) as d eqn:Ed.
  remember (d - 53)%Z as n eqn:En.
  assert (Hn : (0 <= n)%Z) by (subst n; lia).
  assert (Hpn : (0 < 2 ^ n)%Z) by (apply Z.pow_pos_nonneg; lia).
  assert (Hdn : (2 ^ (d - 1) = 2 ^ 52 * 2 ^ n)%Z).
  { rewrite <- pow2_split by lia. f_equal. subst n. lia. }
  assert (Hdn' : (2 ^ d = 2 ^ 53 * 2 ^ n)%Z).
  { rewrite <- pow2_split by lia. f_equal. subst n. lia. }
  (* the number in units of the last kept digit *)
  set (y := x / inject_Z (2 ^ n)).
  assert (Hq : 0 < inject_Z (2 ^ n)).
  { change 0 with (inject_Z 0). rewrite <- Zlt_Qlt. exact Hpn. }
  assert (Hxy : x == inject_Z (2 ^ n) * y).
  { subst y. field. lra. }
  destruct (shr_located (shr_record_of_loc (Zpos m) l) e n x y Hn)
    as (mrs' & -> & Hl' & Hm0 & Em0); [rewrite shr_record_of_loc_m; lia
                                       |exact Hl|exact Hxy|].
  rewrite shr_record_of_loc_m in Em0.
  assert (Hm0' : (2 ^ 52 <= shr_m mrs' < 2 ^ 53)%Z).
  { rewrite Em0. split.
    - apply Z.div_le_lower_bound; lia.
    - apply Z.div_lt_upper_bound; lia. }
  destruct (round_nearest_even_located mrs' y Hl') as (Hm1 & Hy1 & Hy2).
  set (m1 := round_nearest_even (shr_m mrs') (loc_of_shr_record mrs')) in *.
  assert (Hm1' : (2 ^ 52 <= m1 <= 2 ^ 53)%Z) by lia.
  (* the number is at least [2^52] units, the error at most half a unit *)
  assert (Hx : inject_Z (Zpos m) <= x).
  { revert Hl. unfold located. rewrite shr_record_of_loc_m.
    destruct (shr_r _), (shr_s _); simpl; lra. }
  assert (Hy : inject_Z (2 ^ 52) <= y).
  { assert (H : inject_Z (2 ^ 52 * 2 ^ n) <= inject_Z (Zpos m)).
    { rewrite <- Zle_Qle. lia. }
    rewrite inject_Z_mult in H.
    assert (Hy' : inject_Z (2 ^ n) * inject_Z (2 ^ 52)
                  <= inject_Z (2 ^ n) * y) by lra.
    apply Qmult_le_l in Hy'; assumption. }
  assert (Hrel : forall (m' : positive) (k : Z),
            (Zpos m' * 2 ^ k = m1 * 2 ^ n)%Z ->
            Qabs (inject_Z (Zpos m' * 2 ^ k) - x) * inject_Z (2 ^ 53) <= x).
  { intros m' k E. rewrite E, inject_Z_mult, Hxy.
    setoid_replace (inject_Z m1 * inject_Z (2 ^ n) - inject_Z (2 ^ n) * y)
      with (inject_Z (2 ^ n) * (inject_Z m1 - y)) using relation Qeq by ring.
    rewrite Qabs_Qmult, (Qabs_pos (inject_Z (2 ^ n))) by lra.
    assert (Ha : Qabs (inject_Z m1 - y) <= 1 # 2).
    { apply Qabs_Qle_condition. split; lra. }
    change (inject_Z (2 ^ 53)) with (2 * inject_Z (2 ^ 52)).
    change (inject_Z (2 ^ 52)) with (4503599627370496 # 1) in *.
    nra. }
  destruct m1 as [|q|q] eqn:Eq; [lia| |lia].
  destruct (Z.eq_dec (Zpos q) (2 ^ 53)%Z) as [Ecarry|Ncarry].
  - (* the mantissa was rounded up to the next power of two *)
    assert (Eq' : q = 9007199254740992%positive)
      by (change (2 ^ 53)%Z with (Zpos 9007199254740992) in Ecarry;
          congruence).
    clear Ecarry. subst q.
    exists 4503599627370496%positive, (n + 1)%Z.
    split.
    { unfold shr_fexp, fexp. rewrite emin_64. cbn [Zdigits2].
      change (Zpos (digits2_pos 9007199254740992)) with 54%Z.
      change prec with 53%Z.
      replace (Z.max (54 + (e + n) - 53) (-1074) - (e + n))%Z with 1%Z
        by (subst n; lia).
      cbv [shr shr_record_of_loc shr_m SpecFloat.iter_pos shr_1].
      change (emax - 53)%Z with 971%Z.
      replace (e + n + 1 <=? 971)%Z with true
        by (symmetry; apply Z.leb_le; subst n; lia).
      f_equal. lia. }
    split; [lia|]. split; [lia|]. split; [lia|].
    apply Hrel. rewrite pow2_split by lia. lia.
  - exists q, n. split.
    { unfold shr_fexp, fexp. rewrite emin_64. cbn [Zdigits2].
      rewrite (digits2_pos_unique q 53) by lia.
      change prec with 53%Z.
      replace (Z.max (53 + (e + n) - 53) (-1074) - (e + n))%Z with 0%Z
        by (subst n; lia).
      cbv [shr shr_record_of_loc shr_m].
      change (emax - 53)%Z with 971%Z.
      replace (e + n <=? 971)%Z with true
        by (symmetry; apply Z.leb_le; subst n; lia).
      reflexivity. }
    split; [lia|]. split; [lia|]. split; [lia|]. apply Hrel. reflexivity.
Qed.




Lemma pow2_pos (e : Z) : 0 < 2 ^ e.
Proof. apply Qpower_0_lt. reflexivity. Qed.

Lemma pow2_add (a b : Z) : 2 ^ (a + b) == 2 ^ a * 2 ^ b.
Proof. apply Qpower_plus. discriminate. Qed.

Lemma pow2_inject (k : Z) : (0 <= k)%Z -> inject_Z (2 ^ k) == 2 ^ k.
Proof. intros Hk. apply (Zpower_Qpower 2 k Hk). Qed.

Lemma F2Q_shift (m e k : Z) :
  (0 <= k)%Z -> F2Q (m * 2 ^ k) e == F2Q m (e + k).
Proof.
  intros Hk. unfold F2Q.
  rewrite inject_Z_mult, pow2_inject, pow2_add by assumption. ring.
Qed.

Lemma SF2Q_align (s : bool) (m : positive) (e ez : Z) :
  (ez <= e)%Z ->
  SF2Q (S754_finite s m e) == F2Q (cond_Zopp s (Zpos m * 2 ^ (e - ez))) ez.
Proof.
  intros H. unfold SF2Q.
  replace (cond_Zopp s (Zpos m * 2 ^ (e - ez)))
    with (cond_Zopp s (Zpos m) * 2 ^ (e - ez))%Z
    by (destruct s; unfold cond_Zopp; [rewrite <- Z.mul_opp_l|]; reflexivity).
  rewrite F2Q_shift by lia. replace (ez + (e - ez))%Z with e by lia.
  reflexivity.
Qed.

Lemma F2Q_add (a b e : Z) : F2Q a e + F2Q b e == F2Q (a + b) e.
Proof. unfold F2Q. rewrite inject_Z_plus. ring. Qed.

Lemma rel_scale (a x c : Q) :
  0 < c ->
  Qabs (a - x) * inject_Z (2 ^ 53) <= x ->
  Qabs (a * c - x * c) * inject_Z (2 ^ 53) <= x * c.
Proof.
  intros Hc H.
  setoid_replace (a * c - x * c) with ((a - x) * c) using relation Qeq by ring.
  rewrite Qabs_Qmult, (Qabs_pos c) by lra.
  setoid_replace (Qabs (a - x) * c * inject_Z (2 ^ 53))
    with (Qabs (a - x) * inject_Z (2 ^ 53) * c) using relation Qeq by ring.
  apply Qmult_le_compat_r; lra.
Qed.

Lemma iter_xO (m d : positive) :
  Zpos (Pos.iter xO m d) = (Zpos m * 2 ^ Zpos d)%Z.
Proof.
  induction d as [|d IH] using Pos.peano_ind.
  - simpl. lia.
  - rewrite Pos.iter_succ, Pos2Z.inj_succ, Z.pow_succ_r by lia.
    rewrite Pos2Z.inj_xO, IH. lia.
Qed.

Lemma shl_align_fst (m : positive) (e ez : Z) :
  (ez <= e)%Z ->
  Zpos (fst (shl_align m e ez)) = (Zpos m * 2 ^ (e - ez))%Z.
Proof.
  intros H. unfold shl_align.
  destruct (ez - e)%Z as [|d|d] eqn:E; [|lia|].
  - replace (e - ez)%Z with 0%Z by lia. simpl. lia.
  - replace (e - ez)%Z with (Zpos d) by lia. simpl. apply iter_xO.
Qed.

Lemma binary_round_wide (sx : bool) (m : positive) (e : Z) :
  (53 <= Zpos (digits2_pos m))%Z ->
  binary_round prec emax sx m e
  = binary_round_aux prec emax sx (Zpos m) e loc_Exact.
Proof.
  intros Hd. unfold binary_round, shl_align, fexp.
  destruct (Z.max (Zpos (digits2_pos m) + e - prec) (SpecFloat.emin prec emax) - e)%Z
    as [|d|d] eqn:E; try reflexivity.
  change prec with 53%Z in E. lia.
Qed.

(** The sum of two finite numbers, when it is positive, has at least 53
    digits in units of the smaller exponent and is in the normal range. *)
Lemma SFadd_finite (sx : bool) (mx : positive) (ex : Z)
    (sy : bool) (my : positive) (ey : Z) (M : positive) :
  (cond_Zopp sx (Zpos mx * 2 ^ (ex - Z.min ex ey))
   + cond_Zopp sy (Zpos my * 2 ^ (ey - Z.min ex ey)) = Zpos M)%Z ->
  (53 <= Zpos (digits2_pos M))%Z ->
  (-1074 <= Z.min ex ey + Zpos (digits2_pos M) - 53)%Z ->
  (Z.min ex ey + Zpos (digits2_pos M) - 53 < 971)%Z ->
  exists (m' : positive) (e' : Z),
    SFadd prec emax (S754_finite sx mx ex) (S754_finite sy my ey)
    = S754_finite false m' e' /\
    (2 ^ 52 <= Zpos m' < 2 ^ 53)%Z /\
    (Z.min ex ey + Zpos (digits2_pos M) - 53 <= e'
     <= Z.min ex ey + Zpos (digits2_pos M) - 52)%Z /\
    Qabs (F2Q (Zpos m') e'
          - (SF2Q (S754_finite sx mx ex) + SF2Q (S754_finite sy my ey)))
    * inject_Z (2 ^ 53)
    <= SF2Q (S754_finite sx mx ex) + SF2Q (S754_finite sy my ey).
Proof.
  intros HM Hd Hlo Hhi.
  remember (Z.min ex ey) as ez eqn:Ez.
  assert (Hzx : (ez <= ex)%Z) by lia.
  assert (Hzy : (ez <= ey)%Z) by lia.
  assert (Hsum : SF2Q (S754_finite sx mx ex) + SF2Q (S754_finite sy my ey)
                 == F2Q (Zpos M) ez).
  { rewrite (SF2Q_align sx mx ex ez Hzx), (SF2Q_align sy my ey ez Hzy).
    rewrite F2Q_add, HM. reflexivity. }
  destruct (binary_round_aux_normal false M ez loc_Exact (inject_Z (Zpos M))
              Hd Hlo Hhi) as (m' & k & Hr & Hk & Hkd & Hm' & Herr).
  { simpl. reflexivity. }
  exists m', (ez + k)%Z. split; [|split; [exact Hm'|split; [lia|]]].
  - cbn [SFadd]. rewrite <- Ez.
    assert (Hx : cond_Zopp sx (Zpos (fst (shl_align mx ex ez)))
                 = cond_Zopp sx (Zpos mx * 2 ^ (ex - ez))).
    { f_equal. apply shl_align_fst, Hzx. }
    assert (Hy : cond_Zopp sy (Zpos (fst (shl_align my ey ez)))
                 = cond_Zopp sy (Zpos my * 2 ^ (ey - ez))).
    { f_equal. apply shl_align_fst, Hzy. }
    rewrite Hx, Hy, HM. cbn [binary_normalize].
    rewrite binary_round_wide by exact Hd. exact Hr.
  - rewrite Hsum. rewrite <- (F2Q_shift (Zpos m') ez k Hk).
    unfold F2Q. apply rel_scale; [apply pow2_pos|exact Herr].
Qed.

(** The product of two positive normal numbers. *)
Lemma SFmul_normal (mx : positive) (ex : Z) (my : positive) (ey : Z) :
  (2 ^ 52 <= Zpos mx < 2 ^ 53)%Z -> (2 ^ 52 <= Zpos my < 2 ^ 53)%Z ->
  (-1074 <= ex + ey + 52)%Z -> (ex + ey + 53 < 971)%Z ->
  exists (m' : positive) (e' : Z),
    SFmul prec emax (S754_finite false mx ex) (S754_finite false my ey)
    = S754_finite false m' e' /\
    (2 ^ 52 <= Zpos m' < 2 ^ 53)%Z /\
    (ex + ey + 52 <= e' <= ex + ey + 54)%Z /\
    Qabs (F2Q (Zpos m') e' - F2Q (Zpos mx) ex * F2Q (Zpos my) ey)
    * inject_Z (2 ^ 53)
    <= F2Q (Zpos mx) ex * F2Q (Zpos my) ey.
Proof.
  intros Hx Hy Hlo Hhi.
  assert (HM : (2 ^ 104 <= Zpos (mx * my) < 2 ^ 106)%Z).
  { rewrite Pos2Z.inj_mul.
    change (2 ^ 104)%Z with (2 ^ 52 * 2 ^ 52)%Z.
    change (2 ^ 106)%Z with (2 ^ 53 * 2 ^ 53)%Z. nia. }
  pose proof (digits2_pos_bounds (mx * my)) as Hb.
  assert (Hd : (105 <= Zpos (digits2_pos (mx * my)) <= 106)%Z).
  { split.
    - apply Z.nlt_ge. intros Hc.
      assert (2 ^ Zpos (digits2_pos (mx * my)) <= 2 ^ 104)%Z
        by (apply Z.pow_le_mono_r; lia). lia.
    - apply Z.nlt_ge. intros Hc.
      assert (2 ^ 106 <= 2 ^ (Zpos (digits2_pos (mx * my)) - 1))%Z
        by (apply Z.pow_le_mono_r; lia). lia. }
  destruct (binary_round_aux_normal false (mx * my) (ex + ey) loc_Exact
              (inject_Z (Zpos (mx * my))))
    as (m' & k & Hr & Hk & Hkd & Hm' & Herr);
    [lia|lia|lia|simpl; reflexivity|].
  exists m', (ex + ey + k)%Z.
  split; [exact Hr|split; [exact Hm'|split; [lia|]]].
  assert (Hv : F2Q (Zpos mx) ex * F2Q (Zpos my) ey
               == inject_Z (Zpos (mx * my)) * 2 ^ (ex + ey)).
  { unfold F2Q. rewrite Pos2Z.inj_mul, inject_Z_mult, pow2_add. ring. }
  rewrite Hv, <- (F2Q_shift (Zpos m') (ex + ey) k Hk).
  unfold F2Q. apply rel_scale; [apply pow2_pos|exact Herr].
Qed.

Lemma new_location_located (my r q : Z) :
  (0 < my)%Z -> (0 <= r < my)%Z ->
  located (shr_record_of_loc q (new_location my r))
          (inject_Z q + inject_Z r / inject_Z my).
Proof.
  intros Hy Hr.
  assert (HY : 0 < inject_Z my).
  { change 0 with (inject_Z 0). rewrite <- Zlt_Qlt. exact Hy. }
  set (t := inject_Z r / inject_Z my).
  assert (Et : t * inject_Z my == inject_Z r) by (subst t; field; lra).
  assert (Hlt : forall a b : Z, (a < b)%Z -> inject_Z a < inject_Z b)
    by (intros; rewrite <- Zlt_Qlt; assumption).
  assert (H2 : forall a : Z, inject_Z (2 * a) == 2 * inject_Z a)
    by (intros; rewrite inject_Z_mult; reflexivity).
  assert (Ht1 : t < 1).
  { apply Qlt_shift_div_r; [exact HY|]. rewrite Qmult_1_l. apply Hlt, Hr. }
  assert (Hhalf : forall c, (2 * r ?= my)%Z = c ->
            match c with
            | Lt => t < 1 # 2
            | Eq => t == 1 # 2
            | Gt => 1 # 2 < t
            end).
  { intros c Ec. destruct c.
    - apply Z.compare_eq in Ec.
      assert (E : inject_Z my == 2 * inject_Z r) by (rewrite <- Ec; apply H2).
      apply Qle_antisym.
      + apply Qle_shift_div_r; [exact HY|]. lra.
      + apply Qle_shift_div_l; [exact HY|]. lra.
    - apply Z.compare_lt_iff, Hlt in Ec. rewrite H2 in Ec.
      apply Qlt_shift_div_r; [exact HY|]. lra.
    - apply Z.compare_gt_iff, Hlt in Ec. rewrite H2 in Ec.
      apply Qlt_shift_div_l; [exact HY|]. lra. }
  assert (Ht0 : r <> 0%Z -> 0 < t).
  { intros Hn. apply Qlt_shift_div_l; [exact HY|]. rewrite Qmult_0_l.
    change 0 with (inject_Z 0). apply Hlt. lia. }
  unfold new_location.
  destruct (Z.even my) eqn:Ev;
    unfold new_location_even, new_location_odd;
    (destruct (Z.eqb_spec r 0) as [E0|N0];
     [assert (Z0 : t == 0)
        by (unfold t; rewrite E0; unfold Qdiv; apply Qmult_0_l);
      unfold located; cbn [shr_record_of_loc shr_m shr_r shr_s]; lra
     |specialize (Ht0 N0)]).
  - pose proof (Hhalf _ eq_refl) as Hc.
    destruct (2 * r ?= my)%Z; unfold located;
      cbn [shr_record_of_loc shr_m shr_r shr_s]; lra.
  - assert (Hodd : (2 * r <> my)%Z).
    { intros E. rewrite <- E, Z.even_mul in Ev. discriminate. }
    destruct (2 * r + 1 ?= my)%Z eqn:Ec.
    + apply Z.compare_eq in Ec.
      assert (Hc := Hhalf Lt). rewrite Z.compare_lt_iff in Hc.
      unfold located; cbn [shr_record_of_loc shr_m shr_r shr_s].
      assert (t < 1 # 2) by (apply Hc; lia). lra.
    + assert (Ec' : (2 * r + 1 < my)%Z) by exact Ec.
      assert (Hc := Hhalf Lt). rewrite Z.compare_lt_iff in Hc.
      unfold located; cbn [shr_record_of_loc shr_m shr_r shr_s].
      assert (t < 1 # 2) by (apply Hc; lia). lra.
    + assert (Ec' : (my < 2 * r + 1)%Z) by (apply Z.gt_lt; exact Ec).
      assert (Hc := Hhalf Gt). rewrite Z.compare_gt_iff in Hc.
      unfold located; cbn [shr_record_of_loc shr_m shr_r shr_s].
      assert (1 # 2 < t) by (apply Hc; lia). lra.
Qed.

Lemma pow2_opp (e : Z) : 2 ^ (- e) == / 2 ^ e.
Proof. apply Qpower_opp. Qed.

Lemma F2Q_pos (m : positive) (e : Z) : 0 < F2Q (Zpos m) e.
Proof.
  unfold F2Q. apply Qmult_lt_0_compat; [reflexivity|apply pow2_pos].
Qed.

(** The quotient of two positive normal numbers. *)
Lemma SFdiv_normal (mx : positive) (ex : Z) (my : positive) (ey : Z) :
  (2 ^ 52 <= Zpos mx < 2 ^ 53)%Z -> (2 ^ 52 <= Zpos my < 2 ^ 53)%Z ->
  (-1074 <= ex - ey - 53)%Z -> (ex - ey - 52 < 971)%Z ->
  exists (m' : positive) (e' : Z),
    SFdiv prec emax (S754_finite false mx ex) (S754_finite false my ey)
    = S754_finite false m' e' /\
    (2 ^ 52 <= Zpos m' < 2 ^ 53)%Z /\
    (ex - ey - 53 <= e' <= ex - ey - 51)%Z /\
    Qabs (F2Q (Zpos m') e' - F2Q (Zpos mx) ex / F2Q (Zpos my) ey)
    * inject_Z (2 ^ 53)
    <= F2Q (Zpos mx) ex / F2Q (Zpos my) ey.
Proof.
  intros Hx Hy Hlo Hhi.
  set (e0 := (ex - ey - 53)%Z).
  assert (Hcore : SFdiv_core_binary prec emax (Zpos mx) ex (Zpos my) ey
                  = (let '(q, r) := Z.div_eucl (Zpos mx * 2 ^ 53) (Zpos my) in
                     (q, e0, new_location (Zpos my) r))).
  { unfold SFdiv_core_binary, fexp. cbn [Zdigits2].
    rewrite (digits2_pos_unique mx 53), (digits2_pos_unique my 53) by lia.
    rewrite emin_64. change prec with 53%Z.
    replace (Z.min (Z.max (53 + ex - (53 + ey) - 53) (-1074)) (ex - ey))
      with e0 by (subst e0; lia).
    replace (ex - ey - e0)%Z with 53%Z by (subst e0; lia).
    rewrite Z.shiftl_mul_pow2 by lia. reflexivity. }
  pose proof (Z_div_mod (Zpos mx * 2 ^ 53) (Zpos my) eq_refl) as Hdm.
  destruct (Z.div_eucl (Zpos mx * 2 ^ 53) (Zpos my)) as [q r] eqn:Eqr.
  destruct Hdm as [Hq Hr].
  assert (Hqb : (2 ^ 52 <= q < 2 ^ 54)%Z).
  { change (2 ^ 54)%Z with (2 * 2 ^ 53)%Z. nia. }
  destruct q as [|q|q]; [lia| |lia].
  pose proof (digits2_pos_bounds q) as Hb.
  assert (Hd : (53 <= Zpos (digits2_pos q) <= 54)%Z).
  { split.
    - apply Z.nlt_ge. intros Hc.
      assert (2 ^ Zpos (digits2_pos q) <= 2 ^ 52)%Z
        by (apply Z.pow_le_mono_r; lia). lia.
    - apply Z.nlt_ge. intros Hc.
      assert (2 ^ 54 <= 2 ^ (Zpos (digits2_pos q) - 1))%Z
        by (apply Z.pow_le_mono_r; lia). lia. }
  set (X := inject_Z (Zpos q) + inject_Z r / inject_Z (Zpos my)).
  destruct (binary_round_aux_normal false q e0 (new_location (Zpos my) r) X)
    as (m' & k & Hres & Hk & Hkd & Hm' & Herr);
    [lia|subst e0; lia|subst e0; lia
     |apply new_location_located; lia|].
  exists m', (e0 + k)%Z.
  split; [|split; [exact Hm'|split; [subst e0; lia|]]].
  - cbn [SFdiv xorb]. rewrite Hcore. exact Hres.
  - assert (Hv : F2Q (Zpos mx) ex / F2Q (Zpos my) ey == X * 2 ^ e0).
    { assert (HX : X == inject_Z (Zpos mx * 2 ^ 53) / inject_Z (Zpos my)).
      { subst X. rewrite Hq, inject_Z_plus, inject_Z_mult. field.
        intros E. discriminate E. }
      rewrite HX. unfold F2Q.
      rewrite inject_Z_mult, (pow2_inject 53) by lia.
      replace ex with (e0 + 53 + ey)%Z at 1 by (subst e0; lia).
      rewrite !pow2_add.
      pose proof (pow2_pos ey). pose proof (pow2_pos e0).
      field. split; [intros E; discriminate E|lra]. }
    rewrite Hv, <- (F2Q_shift (Zpos m') e0 k Hk).
    unfold F2Q. apply rel_scale; [apply pow2_pos|exact Herr].
Qed.

Lemma F2Q_lt (a b e : Z) : (a < b)%Z -> F2Q a e < F2Q b e.
Proof.
  intros H. unfold F2Q. apply Qmult_lt_compat_r; [apply pow2_pos|].
  rewrite <- Zlt_Qlt. exact H.
Qed.

Lemma F2Q_le (a b e : Z) : (a <= b)%Z -> F2Q a e <= F2Q b e.
Proof.
  intros H. unfold F2Q. apply Qmult_le_compat_r.
  - rewrite <- Zle_Qle. exact H.
  - apply Qlt_le_weak, pow2_pos.
Qed.

Lemma F2Q_lt_inv (a b e : Z) : F2Q a e < F2Q b e -> (a < b)%Z.
Proof.
  intros H. apply Z.nle_gt. intros Hc. apply (F2Q_le b a e) in Hc. lra.
Qed.

Lemma F2Q_le_inv (a b e : Z) : F2Q a e <= F2Q b e -> (a <= b)%Z.
Proof.
  intros H. apply Z.nlt_ge. intros Hc. apply (F2Q_lt b a e) in Hc. lra.
Qed.

Lemma F2Q_lt_exp (mx : positive) (ex : Z) (my : positive) (ey : Z) :
  (Zpos mx < 2 ^ 53)%Z -> (2 ^ 52 <= Zpos my)%Z -> (ex < ey)%Z ->
  F2Q (Zpos mx) ex < F2Q (Zpos my) ey.
Proof.
  intros Hx Hy He.
  replace ey with (ex + (ey - ex))%Z by lia.
  rewrite <- F2Q_shift by lia. apply F2Q_lt.
  assert (2 ^ 1 <= 2 ^ (ey - ex))%Z by (apply Z.pow_le_mono_r; lia).
  change (2 ^ 1)%Z with 2%Z in *. change (2 ^ 53)%Z with (2 * 2 ^ 52)%Z in Hx.
  nia.
Qed.

Lemma SFcompare_normal (mx : positive) (ex : Z) (my : positive) (ey : Z) :
  (2 ^ 52 <= Zpos mx < 2 ^ 53)%Z -> (2 ^ 52 <= Zpos my < 2 ^ 53)%Z ->
  SFcompare (S754_finite false mx ex) (S754_finite false my ey)
  = Some (F2Q (Zpos mx) ex ?= F2Q (Zpos my) ey).
Proof.
  intros Hx Hy. cbn [SFcompare]. f_equal. symmetry.
  destruct (Z.compare_spec ex ey) as [E|E|E].
  - subst ey. change (Pos.compare_cont Eq mx my) with (Pos.compare mx my).
    destruct (Pos.compare_spec mx my) as [E|E|E].
    + subst my. apply Qeq_alt. reflexivity.
    + apply Qlt_alt, F2Q_lt. lia.
    + apply Qgt_alt, F2Q_lt. lia.
  - apply Qlt_alt, F2Q_lt_exp; lia.
  - apply Qgt_alt, F2Q_lt_exp; lia.
Qed.

Lemma SFltb_normal (mx : positive) (ex : Z) (my : positive) (ey : Z) :
  (2 ^ 52 <= Zpos mx < 2 ^ 53)%Z -> (2 ^ 52 <= Zpos my < 2 ^ 53)%Z ->
  SFltb (S754_finite false mx ex) (S754_finite false my ey) = true
  <-> F2Q (Zpos mx) ex < F2Q (Zpos my) ey.
Proof.
  intros Hx Hy. unfold SFltb. rewrite (SFcompare_normal mx ex my ey Hx Hy).
  rewrite Qlt_alt.
  destruct (F2Q (Zpos mx) ex ?= F2Q (Zpos my) ey); split; congruence.
Qed.

Lemma SFleb_normal (mx : positive) (ex : Z) (my : positive) (ey : Z) :
  (2 ^ 52 <= Zpos mx < 2 ^ 53)%Z -> (2 ^ 52 <= Zpos my < 2 ^ 53)%Z ->
  SFleb (S754_finite false mx ex) (S754_finite false my ey) = true
  <-> F2Q (Zpos mx) ex <= F2Q (Zpos my) ey.
Proof.
  intros Hx Hy. unfold SFleb. rewrite (SFcompare_normal mx ex my ey Hx Hy).
  rewrite Qle_alt.
  destruct (F2Q (Zpos mx) ex ?= F2Q (Zpos my) ey); split; congruence.
Qed.

(** A binary64 number between two positive normal numbers is a positive
    normal number, with its exponent between theirs. *)
Lemma normal_between (x : spec_float) (ml : positive) (el : Z)
    (mh : positive) (eh : Z) :
  valid_binary x = true ->
  (-1074 < el)%Z ->
  SFltb (S754_finite false ml el) x = true ->
  SFleb x (S754_finite false mh eh) = true ->
  exists (m : positive) (e : Z),
    x = S754_finite false m e /\
    (2 ^ 52 <= Zpos m < 2 ^ 53)%Z /\ (el <= e <= eh)%Z.
Proof.
  intros Hv Hel Hlo Hhi.
  destruct x as [s|s| |s m e]; try discriminate.
  - destruct s; discriminate.
  - destruct s; [discriminate|].
    exists m, e. split; [reflexivity|].
    assert (He : (el <= e <= eh)%Z).
    { split.
      - revert Hlo. unfold SFltb. cbn [SFcompare].
        destruct (Z.compare_spec el e); intros; (lia || discriminate).
      - revert Hhi. unfold SFleb. cbn [SFcompare].
        destruct (Z.compare_spec e eh); intros; (lia || discriminate). }
    split; [|exact He].
    cbn [valid_binary] in Hv. unfold bounded, canonical_mantissa, fexp in Hv.
    apply andb_prop in Hv as [Hc _]. apply Z.eqb_eq in Hc.
    rewrite emin_64 in Hc. change prec with 53%Z in Hc.
    pose proof (digits2_pos_bounds m) as Hb.
    replace (Zpos (digits2_pos m)) with 53%Z in Hb by lia.
    exact Hb.
Qed.

Lemma digits2_pos_le (p : positive) (d : Z) :
  (Zpos p < 2 ^ d)%Z -> (0 <= d)%Z -> (Zpos (digits2_pos p) <= d)%Z.
Proof.
  intros H Hd. pose proof (digits2_pos_bounds p) as Hb.
  apply Z.nlt_ge. intros Hc.
  assert (2 ^ d <= 2 ^ (Zpos (digits2_pos p) - 1))%Z
    by (apply Z.pow_le_mono_r; lia). lia.
Qed.

Lemma digits2_pos_ge (p : positive) (d : Z) :
  (2 ^ (d - 1) <= Zpos p)%Z -> (Zpos (digits2_pos p) >= d)%Z.
Proof.
  intros H. pose proof (digits2_pos_bounds p) as Hb.
  apply Z.le_ge, Z.nlt_ge. intros Hc.
  assert (2 ^ Zpos (digits2_pos p) <= 2 ^ (d - 1))%Z
    by (apply Z.pow_le_mono_r; lia). lia.
Qed.

Lemma rel_bounds (a x : Q) :
  Qabs (a - x) * inject_Z (2 ^ 53) <= x ->
  (a - x) * 9007199254740992 <= x /\ (x - a) * 9007199254740992 <= x.
Proof.
  intros H. change (inject_Z (2 ^ 53)) with 9007199254740992 in H.
  pose proof (Qle_Qabs (a - x)) as H1.
  pose proof (Qle_Qabs (- (a - x))) as H2. rewrite Qabs_opp in H2.
  split; nra.
Qed.


Lemma c039_eq : c039 == 7025615418697974 # 18014398509481984.
Proof. reflexivity. Qed.

Lemma c239_eq : c239 == 5381801554707743 # 2251799813685248.
Proof. reflexivity. Qed.

Lemma Prim2SF_039 :
  Prim2SF 0.39 = S754_finite false 7025615418697974 (-54).
Proof. reflexivity. Qed.

Lemma Prim2SF_239 :
  Prim2SF 2.39 = S754_finite false 5381801554707743 (-51).
Proof. reflexivity. Qed.

Lemma Prim2SF_m039 :
  Prim2SF (-0.39) = S754_finite true 7025615418697974 (-54).
Proof. reflexivity. Qed.

(** [(score + 0.39) / 2.39] on a positive normal NIHSS score. *)
Lemma get_RACE_score_b64 (s : float) (m : positive) (e : Z) :
  Prim2SF s = S754_finite false m e ->
  (2 ^ 52 <= Zpos m < 2 ^ 53)%Z -> (-52 <= e <= -47)%Z ->
  exists (mr : positive) (er : Z) (A : Q),
    Prim2SF ((s + 0.39) / 2.39)%float = S754_finite false mr er /\
    (2 ^ 52 <= Zpos mr < 2 ^ 53)%Z /\ (-54 <= er <= -45)%Z /\
    Qabs (A - (F2Q (Zpos m) e + c039)) * inject_Z (2 ^ 53)
    <= F2Q (Zpos m) e + c039 /\
    Qabs (F2Q (Zpos mr) er - A / c239) * inject_Z (2 ^ 53) <= A / c239.
Proof.
  intros Hs Hm He.
  rewrite div_spec, add_spec, Hs, Prim2SF_039, Prim2SF_239.
  assert (Hp : (2 ^ 2 <= 2 ^ (e + 54) <= 2 ^ 7)%Z)
    by (split; apply Z.pow_le_mono_r; lia).
  set (P := (2 ^ (e + 54))%Z) in *.
  assert (HM : (2 ^ 54 <= Zpos m * P + 7025615418697974 < 2 ^ 61)%Z).
  { change (2 ^ 54)%Z with (2 ^ 52 * 2 ^ 2)%Z.
    change (2 ^ 61)%Z with (2 ^ 53 * 2 ^ 7 + 2 ^ 60)%Z.
    change (2 ^ 60)%Z with 1152921504606846976%Z. nia. }
  set (M := Z.to_pos (Zpos m * P + 7025615418697974)).
  assert (EM : Zpos M = (Zpos m * P + 7025615418697974)%Z)
    by (subst M; apply Z2Pos.id; lia).
  assert (Hd1 : (Zpos (digits2_pos M) >= 55)%Z)
    by (apply digits2_pos_ge; rewrite EM; apply HM).
  assert (Hd2 : (Zpos (digits2_pos M) <= 61)%Z)
    by (apply digits2_pos_le; [rewrite EM; apply HM|lia]).
  assert (Emin : Z.min e (-54) = (-54)%Z) by lia.
  destruct (SFadd_finite false m e false 7025615418697974 (-54) M)
    as (ma & ea & Ha & Hma & Hea & Herr_a).
  { rewrite Emin. cbn [cond_Zopp].
    replace (e - -54)%Z with (e + 54)%Z by lia. fold P.
    change (2 ^ (-54 - -54))%Z with 1%Z. lia. }
  { lia. }
  { rewrite Emin. lia. }
  { rewrite Emin. lia. }
  rewrite Emin in Hea.
  destruct (SFdiv_normal ma ea 5381801554707743 (-51) Hma)
    as (mr & er & Hr & Hmr & Her & Herr_r); [lia|lia|lia|].
  exists mr, er, (F2Q (Zpos ma) ea).
  unfold SF64div, SF64add. rewrite Ha, Hr.
  split; [reflexivity|]. split; [exact Hmr|]. split; [lia|].
  split; [exact Herr_a|exact Herr_r].
Qed.

(** [-0.39 + 2.39 * score] on a positive normal RACE score of at least
    one half. *)
Lemma get_NIHSS_b64 (r : float) (mr : positive) (er : Z) :
  Prim2SF r = S754_finite false mr er ->
  (2 ^ 52 <= Zpos mr < 2 ^ 53)%Z -> (-54 <= er <= -45)%Z ->
  1 # 2 <= F2Q (Zpos mr) er ->
  exists (mn : positive) (en : Z) (P : Q),
    Prim2SF (-0.39 + 2.39 * r)%float = S754_finite false mn en /\
    (2 ^ 52 <= Zpos mn < 2 ^ 53)%Z /\
    Qabs (P - c239 * F2Q (Zpos mr) er) * inject_Z (2 ^ 53)
    <= c239 * F2Q (Zpos mr) er /\
    Qabs (F2Q (Zpos mn) en - (P - c039)) * inject_Z (2 ^ 53) <= P - c039.
Proof.
  intros Hr Hmr Her Hhalf.
  rewrite add_spec, mul_spec, Hr, Prim2SF_m039, Prim2SF_239.
  destruct (SFmul_normal 5381801554707743 (-51) mr er)
    as (mp & ep & Hp & Hmp & Hep & Herr_p); [lia|exact Hmr|lia|lia|].
  fold c239 in Herr_p.
  set (R := F2Q (Zpos mr) er) in *.
  set (P := F2Q (Zpos mp) ep) in *.
  pose proof (rel_bounds _ _ Herr_p) as [Hp1 Hp2].
  pose proof c239_eq as Eb. pose proof c039_eq as Ec.
  assert (HP : 1 <= P) by nra.
  assert (Emin : Z.min (-54) ep = (-54)%Z) by lia.
  set (z := (Zpos mp * 2 ^ (ep + 54) - 7025615418697974)%Z).
  assert (Hz : P - c039 == F2Q z (-54)).
  { subst P z. unfold c039. unfold Z.sub at 1. rewrite <- F2Q_add.
    rewrite F2Q_shift by lia. replace (-54 + (ep + 54))%Z with ep by lia.
    unfold F2Q. rewrite inject_Z_opp. ring. }
  assert (Hzb : (2 ^ 53 <= z < 2 ^ 65)%Z).
  { split.
    - apply (F2Q_le_inv _ _ (-54)). rewrite <- Hz.
      assert (Eh : F2Q (2 ^ 53) (-54) == 1 # 2) by reflexivity.
      rewrite Eh. lra.
    - assert (2 ^ (ep + 54) <= 2 ^ 12)%Z by (apply Z.pow_le_mono_r; lia).
      assert (0 < 2 ^ (ep + 54))%Z by (apply Z.pow_pos_nonneg; lia).
      subst z. change (2 ^ 65)%Z with (2 ^ 53 * 2 ^ 12)%Z. nia. }
  set (M := Z.to_pos z).
  assert (EM : Zpos M = z) by (subst M; apply Z2Pos.id; lia).
  assert (Hd1 : (Zpos (digits2_pos M) >= 54)%Z)
    by (apply digits2_pos_ge; rewrite EM; apply Hzb).
  assert (Hd2 : (Zpos (digits2_pos M) <= 65)%Z)
    by (apply digits2_pos_le; [rewrite EM; apply Hzb|lia]).
  destruct (SFadd_finite true 7025615418697974 (-54) false mp ep M)
    as (mn & en & Hn & Hmn & Hen & Herr_n).
  { rewrite Emin. cbn [cond_Zopp]. rewrite EM. subst z.
    replace (ep - -54)%Z with (ep + 54)%Z by lia.
    change (2 ^ (-54 - -54))%Z with 1%Z. lia. }
  { lia. }
  { rewrite Emin. lia. }
  { rewrite Emin. lia. }
  exists mn, en, P.
  unfold SF64add, SF64mul. rewrite Hp, Hn.
  split; [reflexivity|]. split; [exact Hmn|]. split; [exact Herr_p|].
  assert (Es : SF2Q (S754_finite true 7025615418697974 (-54))
               + SF2Q (S754_finite false mp ep) == P - c039).
  { subst P. unfold c039, SF2Q, cond_Zopp, F2Q.
    change (- Zpos 7025615418697974)%Z with (Zneg 7025615418697974).
    change (inject_Z (Zneg 7025615418697974))
      with (- inject_Z (Zpos 7025615418697974)). ring. }
  rewrite Es in Herr_n. exact Herr_n.
Qed.


Lemma SFltb_normal_false (mx : positive) (ex : Z) (my : positive) (ey : Z) :
  (2 ^ 52 <= Zpos mx < 2 ^ 53)%Z -> (2 ^ 52 <= Zpos my < 2 ^ 53)%Z ->
  F2Q (Zpos my) ey <= F2Q (Zpos mx) ex ->
  SFltb (S754_finite false mx ex) (S754_finite false my ey) = false.
Proof.
  intros Hx Hy H.
  destruct (SFltb (S754_finite false mx ex) (S754_finite false my ey)) eqn:E;
    [|reflexivity].
  apply SFltb_normal in E; [lra|assumption|assumption].
Qed.

Lemma SFleb_normal_false (mx : positive) (ex : Z) (my : positive) (ey : Z) :
  (2 ^ 52 <= Zpos mx < 2 ^ 53)%Z -> (2 ^ 52 <= Zpos my < 2 ^ 53)%Z ->
  F2Q (Zpos my) ey < F2Q (Zpos mx) ex ->
  SFleb (S754_finite false mx ex) (S754_finite false my ey) = false.
Proof.
  intros Hx Hy H.
  destruct (SFleb (S754_finite false mx ex) (S754_finite false my ey)) eqn:E;
    [|reflexivity].
  apply SFleb_normal in E; [lra|assumption|assumption].
Qed.

Lemma positive_tests (x : float) (m : positive) (e : Z) :
  Prim2SF x = S754_finite false m e ->
  PrimFloat.ltb x 0 = false /\ PrimFloat.eqb x 0 = false.
Proof.
  intros H. rewrite ltb_spec, FloatAxioms.eqb_spec, H. split; reflexivity.
Qed.

Lemma leb_1_ltb_42 (x : float) :
  PrimFloat.leb x 1 = true -> PrimFloat.ltb 42 x = false.
Proof.
  rewrite leb_spec, ltb_spec.
  change (Prim2SF 1) with (S754_finite false 4503599627370496 (-52)).
  change (Prim2SF 42) with (S754_finite false 5910974510923776 (-47)).
  destruct (Prim2SF x) as [s|s| |s m e]; try (destruct s); try reflexivity;
    try discriminate.
  unfold SFleb, SFltb. cbn [SFcompare].
  destruct (Z.compare_spec e (-52)); destruct (Z.compare_spec (-47) e);
    intros; try reflexivity; try discriminate; lia.
Qed.

(** The scores next to the upper end of the middle band. *)
Lemma band_edge (m : positive) (e : Z) :
  (2 ^ 52 <= Zpos m < 2 ^ 53)%Z ->
  F2Q (Zpos m) e <= F2Q 5944751508129055 (-48) ->
  (e = (-48)%Z /\
   (m = 5944751508129055%positive \/ m = 5944751508129054%positive)) \/
  F2Q (Zpos m) e <= F2Q 5944751508129053 (-48).
Proof.
  intros Hm H. destruct (Z.compare_spec e (-48)) as [E|E|E].
  - subst e. apply F2Q_le_inv in H.
    destruct (Z_le_gt_dec (Zpos m) 5944751508129053) as [L|G].
    + right. apply F2Q_le, L.
    + left. split; [reflexivity|]. lia.
  - right. apply Qlt_le_weak. apply F2Q_lt_exp; lia.
  - exfalso.
    assert (F2Q 5944751508129055 (-48) < F2Q (Zpos m) e)
      by (apply F2Q_lt_exp; lia). lra.
Qed.

Lemma above_edge (m : positive) (e : Z) :
  (2 ^ 52 <= Zpos m < 2 ^ 53)%Z ->
  F2Q 5944751508129055 (-48) < F2Q (Zpos m) e ->
  (e = (-48)%Z /\ m = 5944751508129056%positive) \/
  F2Q 5944751508129057 (-48) <= F2Q (Zpos m) e.
Proof.
  intros Hm H. destruct (Z.compare_spec e (-48)) as [E|E|E].
  - subst e. apply F2Q_lt_inv in H.
    destruct (Z_le_gt_dec 5944751508129057 (Zpos m)) as [L|G].
    + right. apply F2Q_le, L.
    + left. split; [reflexivity|]. lia.
  - exfalso.
    assert (F2Q (Zpos m) e < F2Q 5944751508129055 (-48))
      by (apply F2Q_lt_exp; lia). lra.
  - right. apply Qlt_le_weak. apply F2Q_lt_exp; lia.
Qed.

Lemma B64_NIHSS_init_mid (s : float) :
  PrimFloat.ltb s 0 = false -> PrimFloat.ltb 42 s = false ->
  PrimFloat.leb s 1 = false ->
  PrimFloat.ltb 9 ((s + 0.39) / 2.39)%float = false ->
  PrimFloat.ltb ((s + 0.39) / 2.39)%float 0 = false ->
  PrimFloat.eqb ((s + 0.39) / 2.39)%float 0 = false ->
  B64.NIHSS_init s
  = Ok (((s + 0.39) / 2.39)%float,
        (-0.39 + 2.39 * ((s + 0.39) / 2.39))%float).
Proof.
  intros H0 H42 H1 H9 Hr0 Hrz.
  unfold B64.NIHSS_init, B64._get_RACE_score. rewrite H0, H42, H1.
  cbv zeta. rewrite H9. cbn [orb].
  unfold B64.RACE_init, B64._get_NIHSS. rewrite Hr0, H9, Hrz. reflexivity.
Qed.

Lemma B64_NIHSS_init_reset (s : float) :
  PrimFloat.ltb s 0 = false -> PrimFloat.ltb 42 s = false ->
  PrimFloat.leb s 1 = true \/
  PrimFloat.ltb 9 ((s + 0.39) / 2.39)%float = true ->
  B64.NIHSS_init s = Ok (0%float, 1%float).
Proof.
  intros H0 H42 H.
  unfold B64.NIHSS_init, B64._get_RACE_score. rewrite H0, H42. cbn [orb].
  destruct (PrimFloat.leb s 1) eqn:H1.
  - reflexivity.
  - destruct H as [H|H]; [discriminate|]. cbv zeta. rewrite H. reflexivity.
Qed.


(** The derived NIHSS of the severity built from an NIHSS score in the
    middle band, whose RACE equivalent is not reset. *)
Lemma NIHSS_round_trip_mid (s : float) (m : positive) (e : Z) :
  Prim2SF s = S754_finite false m e ->
  (2 ^ 52 <= Zpos m < 2 ^ 53)%Z -> (-52 <= e <= -48)%Z ->
  1 < F2Q (Zpos m) e ->
  F2Q (Zpos m) e <= F2Q 5944751508129053 (-48) ->
  exists self,
    B64.NIHSS_init s = Ok self /\
    Qabs (B2Q (B64.NIHSS self) - B2Q s) <= 1e-14 /\
    Qabs (B2Q (B64.NIHSS self) - B2Q s) * inject_Z (2 ^ 53) <= 6 * B2Q s.
Proof.
  intros Hs Hm He Hlo Hhi.
  destruct (get_RACE_score_b64 s m e Hs Hm) as
    (mr & er & A & Hrace & Hmr & Her & Ha & Hr); [lia|].
  set (S := F2Q (Zpos m) e) in *.
  set (R := F2Q (Zpos mr) er) in *.
  pose proof c239_eq as Eb. pose proof c039_eq as Ec.
  assert (EX : A / c239 == A * (2251799813685248 # 5381801554707743))
    by (unfold Qdiv; rewrite c239_eq; reflexivity).
  assert (Etop : F2Q 5944751508129053 (-48)
                 == 5944751508129053 # 281474976710656) by reflexivity.
  apply rel_bounds in Ha. apply rel_bounds in Hr.
  rewrite EX in Hr. destruct Ha as [Ha1 Ha2], Hr as [Hr1 Hr2].
  assert (HR9 : R <= 9) by lra.
  assert (HRh : 1 # 2 <= R) by lra.
  destruct (get_NIHSS_b64 _ mr er Hrace Hmr Her HRh) as
    (mn & en & P & Hn & Hmn & Hp & Hnn).
  fold R in Hp. rewrite c239_eq in Hp.
  apply rel_bounds in Hp. apply rel_bounds in Hnn.
  destruct Hp as [Hp1 Hp2], Hnn as [Hn1 Hn2].
  set (N := F2Q (Zpos mn) en) in *.
  destruct (positive_tests s m e Hs) as [Hs0 _].
  destruct (positive_tests _ mr er Hrace) as [Hr0 Hrz].
  assert (E9 : F2Q 5066549580791808 (-49) == 9) by reflexivity.
  assert (E1 : F2Q 4503599627370496 (-52) == 1) by reflexivity.
  assert (E42 : F2Q 5910974510923776 (-47) == 42) by reflexivity.
  exists (((s + 0.39) / 2.39)%float,
          (-0.39 + 2.39 * ((s + 0.39) / 2.39))%float).
  split; [|split].
  - apply B64_NIHSS_init_mid; try assumption.
    + rewrite ltb_spec, Hs.
      change (Prim2SF 42) with (S754_finite false 5910974510923776 (-47)).
      apply SFltb_normal_false; [lia|lia|]. fold S. lra.
    + rewrite leb_spec, Hs.
      change (Prim2SF 1) with (S754_finite false 4503599627370496 (-52)).
      apply SFleb_normal_false; [lia|lia|]. fold S. lra.
    + rewrite ltb_spec, Hrace.
      change (Prim2SF 9) with (S754_finite false 5066549580791808 (-49)).
      apply SFltb_normal_false; [lia|lia|]. fold R. lra.
  - unfold B2Q, B64.NIHSS. cbn [snd]. rewrite Hn, Hs. cbn [SF2Q cond_Zopp].
    fold N S.
    assert (E14 : 1e-14 == 1 # 100000000000000) by reflexivity.
    rewrite E14. apply Qabs_Qle_condition. split; lra.
  - unfold B2Q, B64.NIHSS. cbn [snd]. rewrite Hn, Hs. cbn [SF2Q cond_Zopp].
    fold N S. change (inject_Z (2 ^ 53)) with 9007199254740992.
    apply Qabs_case; intros; lra.
Qed.


Lemma Prim2SF_inv (s : float) (x : spec_float) :
  Prim2SF s = x -> s = SF2Prim x.
Proof. intros <-. symmetry. apply SF2Prim_Prim2SF. Qed.

(** The RACE equivalent of an NIHSS score above the middle band exceeds 9. *)
Lemma get_RACE_score_above (s : float) (m : positive) (e : Z) :
  Prim2SF s = S754_finite false m e ->
  (2 ^ 52 <= Zpos m < 2 ^ 53)%Z -> (-48 <= e <= -47)%Z ->
  F2Q 5944751508129057 (-48) <= F2Q (Zpos m) e ->
  PrimFloat.ltb 9 ((s + 0.39) / 2.39)%float = true.
Proof.
  intros Hs Hm He Hlo.
  destruct (get_RACE_score_b64 s m e Hs Hm) as
    (mr & er & A & Hrace & Hmr & Her & Ha & Hr); [lia|].
  set (S := F2Q (Zpos m) e) in *.
  set (R := F2Q (Zpos mr) er) in *.
  pose proof c239_eq as Eb. pose proof c039_eq as Ec.
  assert (EX : A / c239 == A * (2251799813685248 # 5381801554707743))
    by (unfold Qdiv; rewrite c239_eq; reflexivity).
  assert (Etop : F2Q 5944751508129057 (-48)
                 == 5944751508129057 # 281474976710656) by reflexivity.
  apply rel_bounds in Ha. apply rel_bounds in Hr.
  rewrite EX in Hr. destruct Ha as [Ha1 Ha2], Hr as [Hr1 Hr2].
  assert (E9 : F2Q 5066549580791808 (-49) == 9) by reflexivity.
  rewrite ltb_spec, Hrace.
  change (Prim2SF 9) with (S754_finite false 5066549580791808 (-49)).
  apply SFltb_normal; [lia|lia|]. fold R. lra.
Qed.

(** C10 (as amended).  In binary64, which is what the code computes in,
    the severity built from an NIHSS score [s] with [1 < s <= 21.12] is
    accepted and reports an NIHSS within [1e-14] of [s], and within six
    units of rounding [2^-53] relative to [s]; for [0 <= s <= 1] and for
    [21.12 < s <= 42] the RACE equivalent is reset and the reported NIHSS
    is 1.  The comparisons are those of the code, on binary64 numbers. *)
Theorem NIHSS_round_trip_b64 (s : float) :
  (PrimFloat.ltb 1 s = true -> PrimFloat.leb s 21.12 = true ->
   exists self,
     B64.NIHSS_init s = Ok self /\
     Qabs (B2Q (B64.NIHSS self) - B2Q s) <= 1e-14 /\
     Qabs (B2Q (B64.NIHSS self) - B2Q s) * inject_Z (2 ^ 53) <= 6 * B2Q s) /\
  (PrimFloat.ltb s 0 = false -> PrimFloat.leb s 1 = true ->
   exists self,
     B64.NIHSS_init s = Ok self /\ B64.NIHSS self = 1%float) /\
  (PrimFloat.ltb 21.12 s = true -> PrimFloat.leb s 42 = true ->
   exists self,
     B64.NIHSS_init s = Ok self /\ B64.NIHSS self = 1%float).
Proof.
  split; [|split].
  - intros H1 H2. rewrite ltb_spec in H1. rewrite leb_spec in H2.
    change (Prim2SF 1) with (S754_finite false 4503599627370496 (-52)) in H1.
    change (Prim2SF 21.12)
      with (S754_finite false 5944751508129055 (-48)) in H2.
    destruct (normal_between (Prim2SF s) 4503599627370496 (-52)
                5944751508129055 (-48) (Prim2SF_valid s) ltac:(lia) H1 H2)
      as (m & e & Hs & Hm & He).
    rewrite Hs in H1, H2.
    apply SFltb_normal in H1; [|lia|exact Hm].
    apply SFleb_normal in H2; [|exact Hm|lia].
    assert (E1 : F2Q 4503599627370496 (-52) == 1) by reflexivity.
    destruct (band_edge m e Hm H2) as [[-> [-> | ->]]|Hin].
    + apply Prim2SF_inv in Hs. subst s. clear.
      eexists. split; [vm_compute; reflexivity|].
      split; vm_compute; intros H; discriminate H.
    + apply Prim2SF_inv in Hs. subst s. clear.
      eexists. split; [vm_compute; reflexivity|].
      split; vm_compute; intros H; discriminate H.
    + apply (NIHSS_round_trip_mid s m e Hs Hm He); [lra|exact Hin].
  - intros H0 H1. exists (0%float, 1%float). split; [|reflexivity].
    apply B64_NIHSS_init_reset; [exact H0|apply leb_1_ltb_42, H1|].
    left. exact H1.
  - intros H1 H2. rewrite ltb_spec in H1. rewrite leb_spec in H2.
    change (Prim2SF 42) with (S754_finite false 5910974510923776 (-47)) in H2.
    change (Prim2SF 21.12)
      with (S754_finite false 5944751508129055 (-48)) in H1.
    destruct (normal_between (Prim2SF s) 5944751508129055 (-48)
                5910974510923776 (-47) (Prim2SF_valid s) ltac:(lia) H1 H2)
      as (m & e & Hs & Hm & He).
    rewrite Hs in H1, H2.
    apply SFltb_normal in H1; [|lia|exact Hm].
    apply SFleb_normal in H2; [|exact Hm|lia].
    destruct (above_edge m e Hm H1) as [[-> ->]|Hin].
    + apply Prim2SF_inv in Hs. subst s. clear.
      eexists. split; vm_compute; reflexivity.
    + exists (0%float, 1%float). split; [|reflexivity].
      destruct (positive_tests s m e Hs) as [Hs0 _].
      apply B64_NIHSS_init_reset; [exact Hs0| |].
      * rewrite ltb_spec, Hs.
        change (Prim2SF 42)
          with (S754_finite false 5910974510923776 (-47)).
        apply SFltb_normal_false; [lia|exact Hm|exact H2].
      * right. apply (get_RACE_score_above s m e Hs Hm He Hin).
Qed.

Lemma NIHSS_round_trip_b64_witness :
  PrimFloat.ltb 1 10 = true /\ PrimFloat.leb 10 21.12 = true /\
  exists self,
    B64.NIHSS_init 10 = Ok self /\
    Qabs (B2Q (B64.NIHSS self) - B2Q 10) <= 1e-14.
Proof.
  split; [reflexivity|]. split; [reflexivity|].
  destruct (NIHSS_round_trip_b64 10) as [H _].
  destruct (H eq_refl eq_refl) as (self & Hi & Hb & _).
  exists self. split; assumption.
Defined.

(** C10 (counterexample).  In binary64 the severity built from the NIHSS
    score 4, which lies in the middle band, reports 3.9999999999999996 and
    not 4. *)
Lemma NIHSS_round_trip_inexact_b64 :
  exists self,
    B64.NIHSS_init 4 = Ok self /\
    PrimFloat.ltb 1 4 = true /\ PrimFloat.leb 4 21.12 = true /\
    B64.NIHSS self = 3.9999999999999996%float /\
    PrimFloat.eqb (B64.NIHSS self) 4 = false.
Proof.
  eexists. split; [vm_compute; reflexivity|].
  repeat split; vm_compute; reflexivity.
Qed.

(** The decimal literals above denote the binary64 numbers Python reads
    them as: their exact values, as an integer over a power of two. *)
Remark b64_literals :
  (0.39 = 3512807709348987 / 9007199254740992 /\
   2.39 = 5381801554707743 / 2251799813685248 /\
   21.12 = 5944751508129055 / 281474976710656)%float.
Proof. repeat split; vm_compute; reflexivity. Qed.

(** ** The outcome-state tensor *)

Lemma break_up_cell_Fin (self : RACE) (x : Q) :
  break_up_cell self (Fin x) =
  [Fin (0.205627706 * x); Fin (0.341991342 * x); Fin (0.452380952 * x);
   Fin (0.35678392 * (1 - x - p_death self));
   Fin (0.432160804 * (1 - x - p_death self));
   Fin (0.211055276 * (1 - x - p_death self));
   Fin (p_death self)].
Proof. reflexivity. Qed.

Lemma break_up_cell_NaN (self : RACE) :
  break_up_cell self NaN = [NaN; NaN; NaN; NaN; NaN; NaN; Fin (p_death self)].
Proof. reflexivity. Qed.

Lemma p_death_bands (self : RACE) :
  (NIHSS self < 7 -> p_death self = 0.042) /\
  (7 <= NIHSS self -> NIHSS self < 13 -> p_death self = 0.139) /\
  (13 <= NIHSS self -> NIHSS self < 21 -> p_death self = 0.316) /\
  (21 <= NIHSS self -> p_death self = 0.535).
Proof.
  unfold p_death, np_where.
  destruct (Qlt_bool (NIHSS self) 7) eqn:E7,
           (Qlt_bool (NIHSS self) 13) eqn:E13,
           (Qlt_bool (NIHSS self) 21) eqn:E21; qtest;
    repeat split; intros; first [reflexivity | lra].
Qed.

Lemma p_death_range (self : RACE) : 0.042 <= p_death self <= 0.535.
Proof.
  unfold p_death, np_where.
  destruct (Qlt_bool (NIHSS self) 7), (Qlt_bool (NIHSS self) 13),
           (Qlt_bool (NIHSS self) 21); lra.
Qed.

Lemma break_up_lookup (self : RACE) (p : list (list npfloat)) (i j : nat)
    (row : list npfloat) (v : npfloat) :
  p !! i = Some row -> row !! j = Some v ->
  exists row',
    break_up_ais_patients self p !! i = Some row' /\
    length row' = length row /\
    row' !! j = Some (break_up_cell self v).
Proof.
  intros Hi Hj. exists (break_up_cell self <$> row).
  unfold break_up_ais_patients.
  rewrite !list_lookup_fmap, Hi, Hj, length_fmap. auto.
Qed.

(** C1 (as amended).  Whatever the severity, the tensor has one cell per
    entry of the input array, and the death constant of the NIHSS band in
    mRS 6.  For an entry that is a probability [x] (a number in [0, 1]) the
    cell holds the fixed shares of [x] in mRS 0 to 2 and the fixed shares of
    [1 - x - death] in mRS 3 to 5, and its seven entries sum to 1, hence to
    1 within 1e-9.  For an entry that is NaN the six states derived from it
    are NaN and so is the sum of the cell. *)
Theorem break_up_ais_patients_sums_to_one (self : RACE)
    (p : list (list npfloat)) (i j : nat) (row : list npfloat) (v : npfloat) :
  p !! i = Some row -> row !! j = Some v ->
  length (break_up_ais_patients self p) = length p /\
  exists row' cell d,
    break_up_ais_patients self p !! i = Some row' /\
    length row' = length row /\
    row' !! j = Some cell /\
    (NIHSS self < 7 -> d = 0.042) /\
    (7 <= NIHSS self -> NIHSS self < 13 -> d = 0.139) /\
    (13 <= NIHSS self -> NIHSS self < 21 -> d = 0.316) /\
    (21 <= NIHSS self -> d = 0.535) /\
    (forall x : Q, v = Fin x -> 0 <= x -> x <= 1 ->
       cell = [Fin (0.205627706 * x); Fin (0.341991342 * x);
               Fin (0.452380952 * x);
               Fin (0.35678392 * (1 - x - d));
               Fin (0.432160804 * (1 - x - d));
               Fin (0.211055276 * (1 - x - d)); Fin d] /\
       exists s, np_sum cell = Fin s /\ s == 1 /\ Qabs (s - 1) <= 1e-9) /\
    (v = NaN ->
       cell = [NaN; NaN; NaN; NaN; NaN; NaN; Fin d] /\ np_sum cell = NaN).
Proof.
  intros Hi Hj.
  split; [unfold break_up_ais_patients; apply length_fmap|].
  destruct (break_up_lookup self p i j row v Hi Hj) as (row' & Hr & Hl & Hc).
  exists row', (break_up_cell self v), (p_death self).
  destruct (p_death_bands self) as (B1 & B2 & B3 & B4).
  do 7 (split; [assumption|]).
  split.
  - intros x -> H0 H1. rewrite break_up_cell_Fin. split; [reflexivity|].
    eexists. split; [reflexivity|].
    assert (Hs : 0.205627706 * x + (0.341991342 * x + (0.452380952 * x +
                 (0.35678392 * (1 - x - p_death self) +
                  (0.432160804 * (1 - x - p_death self) +
                   (0.211055276 * (1 - x - p_death self) +
                    (p_death self + 0)))))) == 1) by ring.
    split; [exact Hs|]. rewrite Hs. vm_compute. congruence.
  - intros ->. rewrite break_up_cell_NaN. split; reflexivity.
Qed.

(** The spec's scenario: NIHSS 10 and an array of 3 samples by 2 hospitals
    filled with 0.5. *)
Lemma break_up_ais_patients_sums_to_one_witness :
  exists self row' cell s,
    NIHSS_init 10 = Ok self /\
    break_up_ais_patients self (replicate 3 (replicate 2 (Fin 0.5))) !! 2%nat
      = Some row' /\
    row' !! 1%nat = Some cell /\
    cell !! States.MRS_6 = Some (Fin 0.139) /\
    cell !! States.MRS_0 = Some (Fin (0.205627706 * 0.5)) /\
    np_sum cell = Fin s /\ s == 1.
Proof.
  destruct (NIHSS_init 10) as [self|] eqn:E; [|discriminate E].
  destruct (break_up_ais_patients_sums_to_one self
              (replicate 3 (replicate 2 (Fin 0.5))) 2 1
              (replicate 2 (Fin 0.5)) (Fin 0.5) eq_refl eq_refl)
    as (_ & row' & cell & d & Hr & _ & Hc & _ & Hd & _ & _ & Hfin & _).
  assert (H0 : 0 <= 0.5) by (vm_compute; congruence).
  assert (H1 : 0.5 <= 1) by (vm_compute; congruence).
  destruct (Hfin 0.5 eq_refl H0 H1) as (Hcell & s & Hs & Hs1 & _).
  exists self, row', cell, s.
  split; [reflexivity|]. split; [exact Hr|]. split; [exact Hc|].
  assert (Hd' : d = 0.139).
  { injection E as <-. apply Hd; vm_compute; congruence. }
  subst d. rewrite Hcell in *.
  split; [reflexivity|]. split; [reflexivity|]. split; [exact Hs|exact Hs1].
Defined.

(** C1 (counterexample).  An array of good-outcome probabilities may hold
    NaN: that is what [p_good_outcome_ais_no_lvo] returns for an unknown
    time.  For the severity of NIHSS 10 the cell of such an entry is NaN in
    the six states derived from it, and its sum is NaN, not 1 within
    1e-9. *)
Lemma break_up_ais_patients_nan :
  exists self p,
    NIHSS_init 10 = Ok self /\
    p_good_outcome_ais_no_lvo 270 self [NaN] = Ok p /\
    break_up_ais_patients self [p]
    = [[[NaN; NaN; NaN; NaN; NaN; NaN; Fin 0.139]]] /\
    np_sum [NaN; NaN; NaN; NaN; NaN; NaN; Fin 0.139] = NaN /\
    (forall s, np_sum [NaN; NaN; NaN; NaN; NaN; NaN; Fin 0.139] = Fin s ->
       ~ Qabs (s - 1) <= 1e-9).
Proof.
  exists {| _score := _get_RACE_score 10;
            _NIHSS := _get_NIHSS (_get_RACE_score 10) |}, [NaN].
  split; [reflexivity|]. split; [vm_compute; reflexivity|].
  split; [vm_compute; reflexivity|]. split; [reflexivity|].
  intros s H. discriminate H.
Qed.

(** The same in binary64, entry by entry, and the sum of an ordinary cell
    for comparison. *)
Remark break_up_cell_b64 :
  forallb PrimFloat.is_nan (take 6 (B64.break_up_cell 10 PrimFloat.nan))
  = true /\
  PrimFloat.is_nan (B64.np_sum (B64.break_up_cell 10 PrimFloat.nan)) = true /\
  PrimFloat.leb
    (PrimFloat.abs (B64.np_sum (B64.break_up_cell 10 0.5) - 1)%float)
    1e-9%float = true.
Proof. repeat split; vm_compute; reflexivity. Qed.

(** ** Good outcome without large-vessel occlusion *)

Lemma NIHSS_sq (n : Q) : n ^ 2 == n * n.
Proof. reflexivity. Qed.

Lemma constructed_NIHSS_range (self : RACE) :
  constructed self -> -0.39 <= NIHSS self /\ NIHSS self <= 21.12.
Proof.
  assert (H : forall r, 0 <= r -> r <= 9 ->
            -0.39 <= _get_NIHSS r /\ _get_NIHSS r <= 21.12).
  { intros r H0 H9. unfold _get_NIHSS.
    destruct (Qeq_bool r 0) eqn:E; qtest; lra. }
  intros [[r Hr]|[s Hs]].
  - apply RACE_init_inv in Hr as (H0 & H9 & ->). apply H; assumption.
  - unfold NIHSS_init in Hs.
    destruct (Qlt_bool s 0 || Qlt_bool 42 s); [discriminate|].
    apply RACE_init_inv in Hs as (H0 & H9 & ->). apply H; assumption.
Qed.

Lemma NIHSS_init_NIHSS_ge_1 (s : Q) (self : RACE) :
  NIHSS_init s = Ok self -> 1 <= NIHSS self.
Proof.
  unfold NIHSS_init.
  destruct (Qlt_bool s 0) eqn:E0; [discriminate|].
  destruct (Qlt_bool 42 s) eqn:E42; [discriminate|]. simpl. qtest.
  intros Hs. apply RACE_init_inv in Hs as (_ & _ & ->).
  unfold NIHSS; simpl.
  pose proof (div_239 s) as Hd.
  destruct (Qlt_le_dec 1 s) as [H1|H1].
  - destruct (Qlt_le_dec 21.12 s) as [H2|H2].
    + rewrite get_RACE_score_high by assumption. vm_compute. congruence.
    + rewrite get_RACE_score_mid by assumption.
      rewrite get_NIHSS_nonzero; [lra|].
      intros Hz. rewrite Hz in Hd. lra.
  - rewrite get_RACE_score_low by assumption. vm_compute. congruence.
Qed.

Lemma RACE_init_integer_NIHSS_ge_1 (z : Z) (self : RACE) :
  RACE_init (inject_Z z) = Ok self -> 1 <= NIHSS self.
Proof.
  intros H. apply RACE_init_inv in H as (H0 & _ & ->).
  unfold NIHSS; simpl. unfold _get_NIHSS.
  destruct (Qeq_bool (inject_Z z) 0) eqn:E; qtest; [lra|].
  assert (Hz : (1 <= z)%Z).
  { destruct (Z_le_gt_dec z 0) as [Hle|Hgt]; [|lia].
    exfalso. apply E.
    assert (inject_Z z <= inject_Z 0) by (rewrite <- Zle_Qle; lia).
    change (inject_Z 0) with 0 in *. lra. }
  assert (inject_Z 1 <= inject_Z z) by (rewrite <- Zle_Qle; lia).
  change (inject_Z 1) with 1 in *. lra.
Qed.

Lemma baseline_prob_bounds (self : RACE) :
  0 < NIHSS self -> NIHSS self <= 21.12 ->
  0 < baseline_prob self /\ baseline_prob self < 1.
Proof.
  intros H0 H1. unfold baseline_prob. rewrite NIHSS_sq.
  set (n := NIHSS self) in *. split; nra.
Qed.

Lemma baseline_prob_one_iff (self : RACE) :
  constructed self ->
  (1 - baseline_prob self == 0 <-> NIHSS self == 0).
Proof.
  intros Hc. apply constructed_NIHSS_range in Hc as [Hlo Hhi].
  unfold baseline_prob. rewrite NIHSS_sq.
  set (n := NIHSS self) in *. split; intros H.
  - assert (Hp : n * (0.0615 - 0.001 * n) == 0) by (rewrite <- H; ring).
    apply Qmult_integral in Hp as [Hp|Hp]; [assumption|lra].
  - rewrite H. reflexivity.
Qed.

Lemma py_div_ok (x y : Q) : ~ y == 0 -> py_div x y = Ok (x / y).
Proof.
  intros H. unfold py_div.
  destruct (Qeq_bool y 0) eqn:E; qtest; [contradiction|reflexivity].
Qed.


Lemma zip_with_fmap_same {A B C : Type} (f : A -> B -> C) (g : A -> B)
    (l : list A) :
  zip_with f l (g <$> l) = (fun x => f x (g x)) <$> l.
Proof.
  induction l as [|x l IH]; [reflexivity|].
  rewrite fmap_cons. cbn [zip_with]. rewrite IH. reflexivity.
Qed.

(** Away from a baseline probability of 1 the call returns, and its result
    is the elementwise image of the input. *)
Lemma p_good_outcome_ais_no_lvo_ok (limit : Q) (self : RACE)
    (t : list npfloat) :
  ~ 1 - baseline_prob self == 0 ->
  p_good_outcome_ais_no_lvo limit self t =
  Ok ((fun x =>
         np_where (np_isnan x) NaN
           (np_where (np_lt x (Fin limit))
              (np_div
                 (np_mul (Fin (baseline_prob self / (1 - baseline_prob self)))
                         (odds_ratio x))
                 (np_add (Fin 1)
                    (np_mul
                       (Fin (baseline_prob self / (1 - baseline_prob self)))
                       (odds_ratio x))))
              (Fin (baseline_prob self)))) <$> t).
Proof.
  intros H. unfold p_good_outcome_ais_no_lvo.
  rewrite (py_div_ok _ _ H). simpl. f_equal.
  rewrite <- !list_fmap_compose.
  apply (zip_with_fmap_same
           (fun x adj =>
              np_where (np_isnan x) NaN
                (np_where (np_lt x (Fin limit)) adj (Fin (baseline_prob self))))).
Qed.




(** The same in exact arithmetic: the RACE score 39/239 is accepted, its
    derived NIHSS is 0 and the baseline probability is 1. *)
Remark p_good_outcome_ais_no_lvo_raises :
  exists self,
    RACE_init (39 # 239) = Ok self /\
    NIHSS self == 0 /\
    p_good_outcome_ais_no_lvo 270 self [NaN] = Raise ZeroDivisionError.
Proof.
  eexists. split; [reflexivity|]. split; vm_compute; reflexivity.
Qed.

(** In binary64 a severity built from an NIHSS score is served as in the
    exact reading. *)
Example p_good_outcome_ais_no_lvo_b64 :
  exists self out,
    B64.NIHSS_init 10 = Ok self /\
    B64.p_good_outcome_ais_no_lvo 270 (B64.NIHSS self)
      [PrimFloat.nan; 60; 300]%float = Ok out /\
    (PrimFloat.is_nan <$> out) = [true; false; false] /\
    out !! 2%nat = Some (B64.baseline_prob (B64.NIHSS self)).
Proof.
  eexists _, _. split; [vm_compute; reflexivity|].
  split; [vm_compute; reflexivity|]. split; vm_compute; reflexivity.
Qed.

(** ** What the constructors accept and what they build *)





(** ** The outcome formulas *)

(** Without reperfusion the probability of a good outcome is never below
    0.05; it is at most 0.9607 as soon as the derived NIHSS is at least 1,
    and it exceeds 1 when the derived NIHSS is below 71/464 (a fractional
    RACE score strictly between 0 and 0.227 yields such a value). *)
Lemma p_good_outcome_no_reperfusion_range (self : RACE) :
  0.05 <= p_good_outcome_no_reperfusion self /\
  (1 <= NIHSS self -> p_good_outcome_no_reperfusion self <= 0.9607) /\
  (NIHSS self < 71 # 464 -> 1 < p_good_outcome_no_reperfusion self).
Proof.
  unfold p_good_outcome_no_reperfusion.
  destruct (Qle_bool 20 (NIHSS self)) eqn:E; qtest;
    repeat split; intros; lra.
Qed.

(** X4.  A more severe stroke never has the better prospects: the
    probability of a good outcome without reperfusion is non-increasing in
    the derived NIHSS, the drop to the constant 0.05 at NIHSS 20 included. *)
Theorem p_good_outcome_no_reperfusion_antitone (a b : RACE) :
  NIHSS a <= NIHSS b ->
  p_good_outcome_no_reperfusion b <= p_good_outcome_no_reperfusion a.
Proof.
  intros H. unfold p_good_outcome_no_reperfusion.
  destruct (Qle_bool 20 (NIHSS a)) eqn:Ea, (Qle_bool 20 (NIHSS b)) eqn:Eb;
    qtest; lra.
Qed.

Lemma p_good_outcome_no_reperfusion_antitone_witness :
  exists a b,
    RACE_init 3 = Ok a /\ RACE_init 9 = Ok b /\
    p_good_outcome_no_reperfusion b <= p_good_outcome_no_reperfusion a.
Proof.
  exists {| _score := 3; _NIHSS := _get_NIHSS 3 |},
         {| _score := 9; _NIHSS := _get_NIHSS 9 |}.
  split; [reflexivity|]. split; [reflexivity|].
  apply p_good_outcome_no_reperfusion_antitone. vm_compute. congruence.
Defined.

(** X5.  Early reperfusion after thrombolysis: the probability grows
    linearly with the time to groin puncture up to 70 minutes and stays at
    0.18 from there on; for a non-negative time it lies between 0 and 0.18,
    and it is non-decreasing in the time. *)
Theorem p_early_reperfusion_thrombolysis_cap (self : RACE) (t t' : Q) :
  (t <= 70 -> p_early_reperfusion_thrombolysis self t == 0.18 * t / 70) /\
  (70 <= t -> p_early_reperfusion_thrombolysis self t == 0.18) /\
  (0 <= t ->
   0 <= p_early_reperfusion_thrombolysis self t /\
   p_early_reperfusion_thrombolysis self t <= 0.18) /\
  (t <= t' ->
   p_early_reperfusion_thrombolysis self t
   <= p_early_reperfusion_thrombolysis self t').
Proof.
  unfold p_early_reperfusion_thrombolysis.
  assert (Hd : forall x, 0.18 * x / 70 == (9 # 3500) * x) by (intros; field).
  rewrite !Hd.
  destruct (Q.min_spec 70 t) as [[H E]|[H E]],
           (Q.min_spec 70 t') as [[H' E']|[H' E']];
    rewrite E, E'; repeat split; intros; lra.
Qed.

(** *** Formulas with the exponential *)

Lemma exp_le (x y : R) : (x <= y)%R -> (exp x <= exp y)%R.
Proof.
  intros [H| ->]; [|apply Rle_refl].
  left. apply exp_increasing, H.
Qed.

Lemma exp_le_1 (x : R) : (x <= 0)%R -> (exp x <= 1)%R.
Proof. intros H. rewrite <- exp_0. apply exp_le, H. Qed.

Lemma Q2R_0 : Q2R 0 = 0%R.
Proof. unfold Q2R. simpl. lra. Qed.

(** The logistic curve [1 / (1 + exp a)] decreases with [a] and stays
    strictly inside (0, 1). *)
Lemma logistic_antitone (a b : R) :
  (a <= b)%R -> (1 / (1 + exp b) <= 1 / (1 + exp a))%R.
Proof.
  intros H. pose proof (exp_pos a). pose proof (exp_le a b H).
  unfold Rdiv. rewrite !Rmult_1_l.
  apply Rinv_le_contravar; lra.
Qed.

Lemma logistic_range (a : R) : (0 < 1 / (1 + exp a) < 1)%R.
Proof.
  pose proof (exp_pos a) as He.
  assert (Hp : (0 < 1 + exp a)%R) by lra.
  split.
  - apply Rdiv_lt_0_compat; lra.
  - apply (Rmult_lt_reg_r (1 + exp a)); [exact Hp|].
    unfold Rdiv. rewrite Rmult_assoc, Rinv_l by lra. lra.
Qed.

Lemma p_good_outcome_post_evt_success_unit (self : RACE) (t : Q) :
  0 <= NIHSS self -> 0 <= t ->
  (0 < p_good_outcome_post_evt_success self t <= 1)%R.
Proof.
  intros Hn Ht. unfold p_good_outcome_post_evt_success.
  cbv zeta. generalize dependent (NIHSS self). intros n Hn.
  assert (Hp : 0 <= t * n) by (apply Qmult_le_0_compat; assumption).
  assert (Hk : 9.01419716e-05 == 901419716 # 10000000000000) by reflexivity.
  split; [apply exp_pos|].
  apply exp_le_1. rewrite <- Q2R_0. apply Qle_Rle. rewrite Hk. nra.
Qed.



(** ** Probability of a large-vessel occlusion *)

Lemma p_lvo_logistic_helper_antitone (self : RACE) (b0 b1 c0 c1 : Q) :
  - c0 - c1 * score self <= - b0 - b1 * score self ->
  (p_lvo_logistic_helper self b0 b1 <= p_lvo_logistic_helper self c0 c1)%R.
Proof.
  intros H. unfold p_lvo_logistic_helper.
  apply logistic_antitone, Qle_Rle, H.
Qed.

Lemma p_lvo_curves_ordered (self : RACE) :
  0 <= score self ->
  (p_lvo_logistic_helper self (-3.6526) 0.4141
   <= p_lvo_logistic_helper self (-2.9297) 0.5533
   <= p_lvo_logistic_helper self (-2.2067) 0.6925)%R.
Proof.
  intros H. split; apply p_lvo_logistic_helper_antitone; lra.
Qed.

(** Without uncertainty the result is the point value of the logistic
    curve with coefficients (-2.9297, 0.5533), strictly between 0 and 1,
    once per sample and each in a row of its own (shape (n, 1)); the random
    generator is not touched. *)
Lemma prob_LVO_given_AIS_point (self : RACE) (n : nat) (g : rng) :
  prob_LVO_given_AIS self n false g
  = (replicate n [p_lvo_logistic_helper self (-2.9297) 0.5533], g) /\
  p_lvo_logistic_helper self (-2.9297) 0.5533
  = (1 / (1 + exp (2.9297 - 0.5533 * Q2R (score self))))%R /\
  (0 < p_lvo_logistic_helper self (-2.9297) 0.5533 < 1)%R.
Proof.
  split; [|split].
  - unfold prob_LVO_given_AIS. simpl. now rewrite fmap_replicate.
  - unfold p_lvo_logistic_helper. do 3 f_equal.
    rewrite Q2R_minus, Q2R_mult, !Q2R_opp.
    unfold Q2R at 1 2. simpl. lra.
  - apply logistic_range.
Qed.

(** With uncertainty the call consumes exactly [n] numbers of the
    generator and sample [i] is [lower + (upper - lower) * u_i], alone in
    its row.  For a non-negative score the lower curve (-3.6526, 0.4141) is
    below the point curve (-2.9297, 0.5533), which is below the upper curve
    (-2.2067, 0.6925), and every sample lies between the lower and the upper
    value. *)
Lemma prob_LVO_given_AIS_uncertain (self : RACE) (n : nat) (g : rng) :
  unit_rng g -> 0 <= score self ->
  let lower := p_lvo_logistic_helper self (-3.6526) 0.4141 in
  let upper := p_lvo_logistic_helper self (-2.2067) 0.6925 in
  let point := p_lvo_logistic_helper self (-2.9297) 0.5533 in
  let out := prob_LVO_given_AIS self n true g in
  (lower <= point <= upper)%R /\
  length out.1 = n /\
  (forall i : nat, (i < n)%nat ->
     out.1 !! i = Some [(lower + (upper - lower) * g i)%R]) /\
  (forall (i : nat) (row : list R), out.1 !! i = Some row ->
     exists x, row = [x] /\ (lower <= x <= upper)%R) /\
  (forall i : nat, out.2 i = g (n + i)%nat).
Proof.
  intros Hg Hs lower upper point out.
  pose proof (p_lvo_curves_ordered self Hs) as Hord. fold lower upper point in Hord.
  assert (Hlook : forall i : nat, (i < n)%nat ->
            out.1 !! i = Some [(lower + (upper - lower) * g i)%R]).
  { intros i Hi. subst out.
    unfold prob_LVO_given_AIS, np_random_uniform, random_sample. simpl.
    rewrite !list_lookup_fmap, lookup_seq_lt by exact Hi. reflexivity. }
  assert (Hlen : length out.1 = n).
  { subst out.
    unfold prob_LVO_given_AIS, np_random_uniform, random_sample. simpl.
    now rewrite !length_fmap, length_seq. }
  split; [exact Hord|]. split; [exact Hlen|]. split; [exact Hlook|].
  split; [|reflexivity].
  intros i row Hrow.
  assert (Hi : (i < n)%nat).
  { rewrite <- Hlen. apply lookup_lt_is_Some. eauto. }
  rewrite (Hlook i Hi) in Hrow. injection Hrow as <-.
  eexists. split; [reflexivity|].
  destruct (Hg i) as [Hu0 Hu1]. split; nra.
Qed.

(** C7.  For a RACE score in [0, 9]: without uncertainty the result is the
    point value [1 / (1 + exp (2.9297 - 0.5533 * score))], once for each of
    the [n] samples; with uncertainty each of the [n] draws lies between the
    value of the lower curve (-3.6526, 0.4141) and that of the upper curve
    (-2.2067, 0.6925) at the score; and the point value lies between the
    two. *)
Theorem prob_LVO_given_AIS_spec (self : RACE) (n : nat) (g : rng) :
  unit_rng g -> 0 <= score self -> score self <= 9 ->
  let lower := (1 / (1 + exp (3.6526 - 0.4141 * Q2R (score self))))%R in
  let upper := (1 / (1 + exp (2.2067 - 0.6925 * Q2R (score self))))%R in
  let point := (1 / (1 + exp (2.9297 - 0.5533 * Q2R (score self))))%R in
  (prob_LVO_given_AIS self n false g).1 = replicate n [point] /\
  length (prob_LVO_given_AIS self n true g).1 = n /\
  (forall (i : nat) (row : list R),
     (prob_LVO_given_AIS self n true g).1 !! i = Some row ->
     exists x, row = [x] /\ (lower <= x <= upper)%R) /\
  (lower <= point <= upper)%R.
Proof.
  intros Hg H0 H9.
  assert (Hl : p_lvo_logistic_helper self (-3.6526) 0.4141
               = (1 / (1 + exp (3.6526 - 0.4141 * Q2R (score self))))%R).
  { unfold p_lvo_logistic_helper. do 3 f_equal.
    rewrite Q2R_minus, Q2R_mult, !Q2R_opp.
    unfold Q2R at 1 2. simpl. lra. }
  assert (Hu : p_lvo_logistic_helper self (-2.2067) 0.6925
               = (1 / (1 + exp (2.2067 - 0.6925 * Q2R (score self))))%R).
  { unfold p_lvo_logistic_helper. do 3 f_equal.
    rewrite Q2R_minus, Q2R_mult, !Q2R_opp.
    unfold Q2R at 1 2. simpl. lra. }
  destruct (prob_LVO_given_AIS_point self n g) as (Hpt & Hp & _).
  destruct (prob_LVO_given_AIS_uncertain self n g Hg H0)
    as (Hord & Hlen & _ & Hrow & _).
  cbv zeta in *. rewrite Hl, Hu, Hp in *.
  split; [rewrite Hpt; reflexivity|].
  split; [exact Hlen|]. split; [exact Hrow|exact Hord].
Qed.

Lemma prob_LVO_given_AIS_spec_witness :
  exists self,
    RACE_init 5 = Ok self /\
    (prob_LVO_given_AIS self 3 false (fun _ => (1 / 2)%R)).1
    = replicate 3 [(1 / (1 + exp (2.9297 - 0.5533 * Q2R (score self))))%R] /\
    forall row : list R,
      (prob_LVO_given_AIS self 3 true (fun _ => (1 / 2)%R)).1 !! 2%nat
      = Some row ->
      exists x, row = [x] /\
        (1 / (1 + exp (3.6526 - 0.4141 * Q2R (score self))) <= x
         <= 1 / (1 + exp (2.2067 - 0.6925 * Q2R (score self))))%R.
Proof.
  exists {| _score := 5; _NIHSS := _get_NIHSS 5 |}.
  split; [reflexivity|].
  assert (Hg : unit_rng (fun _ => (1 / 2)%R)) by (intros i; lra).
  assert (H0 : 0 <= score {| _score := 5; _NIHSS := _get_NIHSS 5 |}).
  { vm_compute. congruence. }
  assert (H9 : score {| _score := 5; _NIHSS := _get_NIHSS 5 |} <= 9).
  { vm_compute. congruence. }
  destruct (prob_LVO_given_AIS_spec _ 3 _ Hg H0 H9) as (Hp & _ & H & _).
  split; [exact Hp|]. intros row. apply (H 2%nat row).
Defined.

(** ** Range of the probability of a good outcome without occlusion *)

Lemma Qdiv_unit (x : Q) : 0 < x -> 0 < x / (1 + x) /\ x / (1 + x) < 1.
Proof.
  intros H. split.
  - apply Qlt_shift_div_l; lra.
  - apply Qlt_shift_div_r; lra.
Qed.

Lemma odds_pos (b : Q) : 0 < b -> b < 1 -> 0 < b / (1 - b).
Proof. intros H0 H1. apply Qlt_shift_div_l; lra. Qed.

(** For a validly constructed severity whose derived NIHSS is at least 1
    (every severity built from an NIHSS score or from an integer RACE
    score), and a treatment time limit of at most 667 minutes, the call
    returns, and every known time is mapped to a number strictly between 0
    and 1. *)
Lemma p_good_outcome_ais_no_lvo_range (limit : Q) (self : RACE)
    (t : list npfloat) :
  constructed self -> 1 <= NIHSS self -> limit <= 667 ->
  exists out,
    p_good_outcome_ais_no_lvo limit self t = Ok out /\
    forall (i : nat) (q : Q), t !! i = Some (Fin q) ->
      exists v, out !! i = Some (Fin v) /\ 0 < v /\ v < 1.
Proof.
  intros Hc Hn Hlim.
  destruct (constructed_NIHSS_range self Hc) as [_ Hhi].
  destruct (baseline_prob_bounds self) as [Hb0 Hb1]; [lra|exact Hhi|].
  assert (Hb : ~ 1 - baseline_prob self == 0) by lra.
  eexists. split; [apply (p_good_outcome_ais_no_lvo_ok limit self t Hb)|].
  intros i q Hq. rewrite list_lookup_fmap, Hq. simpl. unfold np_where.
  pose proof (odds_pos _ Hb0 Hb1) as Ho.
  set (o := baseline_prob self / (1 - baseline_prob self)) in *.
  destruct (Qlt_bool q limit) eqn:E; qtest.
  - assert (Hr : 0 < -0.0031 * q + 2.068) by lra.
    assert (Hno : 0 < o * (-0.0031 * q + 2.068)) by nra.
    destruct (Qeq_bool (1 + o * (-0.0031 * q + 2.068)) 0) eqn:Ez; qtest;
      [lra|].
    eexists. split; [reflexivity|]. apply Qdiv_unit, Hno.
  - eexists. split; [reflexivity|]. split; assumption.
Qed.

(** ** Range and conservation in the outcome-state tensor *)

(** When an entry of the input array is a non-negative number that leaves a
    non-negative [p_bad = 1 - x - death], its cell has exactly seven entries
    and each of them is a number in [0, 1]; when [p_bad] is negative the
    entries for mRS 3 to 5 are negative. *)
Lemma break_up_cell_range (self : RACE) (x : Q) :
  length (break_up_cell self (Fin x)) = States.NUMBER_OF_STATES /\
  (0 <= x -> 0 <= 1 - x - p_death self ->
   forall (k : nat) (v : npfloat), break_up_cell self (Fin x) !! k = Some v ->
     exists q, v = Fin q /\ 0 <= q /\ q <= 1) /\
  (1 - x - p_death self < 0 ->
   forall k : nat, (3 <= k <= 5)%nat ->
     exists q, break_up_cell self (Fin x) !! k = Some (Fin q) /\ q < 0).
Proof.
  pose proof (p_death_range self) as [Hd0 Hd1].
  rewrite break_up_cell_Fin. split; [reflexivity|]. split.
  - intros H0 H1 k v.
    do 7 (destruct k as [|k];
          [intros [= <-]; eexists; split; [reflexivity|lra]|]).
    discriminate.
  - intros Hneg k [H3 H5].
    do 3 (destruct k as [|k]; [lia|]).
    do 3 (destruct k as [|k]; [eexists; split; [reflexivity|lra]|]).
    lia.
Qed.

Lemma constructed_score_range (self : RACE) :
  constructed self -> 0 <= score self /\ score self <= 9.
Proof.
  intros [[r Hr]|[s Hs]].
  - apply RACE_init_inv in Hr as (H0 & H9 & ->). simpl. auto.
  - unfold NIHSS_init in Hs.
    destruct (Qlt_bool s 0 || Qlt_bool 42 s); [discriminate|].
    apply RACE_init_inv in Hs as (H0 & H9 & ->). simpl. auto.
Qed.

(** C2 (as amended).  For a validly constructed severity whose derived NIHSS
    is at least 1 (every severity built from an NIHSS score or from an
    integer RACE score), a non-negative time and a treatment time limit of
    at most 667 minutes, the probabilities of a good outcome without
    reperfusion, without occlusion and after a successful thrombectomy and
    every entry of [prob_LVO_given_AIS] lie in [0, 1].  In the state tensor
    the cell of an entry [x] has all its entries in [0, 1] when [x] is
    non-negative and leaves a non-negative [1 - x - death]; when
    [1 - x - death] is negative the entries for mRS 3 to 5 are negative. *)
Theorem severity_probabilities_range (limit : Q) (self : RACE) (t : Q)
    (ts : list npfloat) (n : nat) (add_uncertainty : bool) (g : rng)
    (p : list (list npfloat)) (i j : nat) (row : list npfloat) (x : Q) :
  constructed self -> 1 <= NIHSS self -> 0 <= t -> limit <= 667 ->
  unit_rng g -> p !! i = Some row -> row !! j = Some (Fin x) ->
  (0 <= p_good_outcome_no_reperfusion self /\
   p_good_outcome_no_reperfusion self <= 1) /\
  (exists out,
     p_good_outcome_ais_no_lvo limit self ts = Ok out /\
     forall (k : nat) (q : Q), ts !! k = Some (Fin q) -> 0 <= q ->
       exists v, out !! k = Some (Fin v) /\ 0 <= v /\ v <= 1) /\
  (0 <= p_good_outcome_post_evt_success self t <= 1)%R /\
  (forall (k : nat) (r : list R),
     (prob_LVO_given_AIS self n add_uncertainty g).1 !! k = Some r ->
     exists y, r = [y] /\ (0 <= y <= 1)%R) /\
  exists row' cell,
    break_up_ais_patients self p !! i = Some row' /\
    row' !! j = Some cell /\
    (0 <= x -> 0 <= 1 - x - p_death self ->
     forall (k : nat) (v : npfloat), cell !! k = Some v ->
       exists q, v = Fin q /\ 0 <= q /\ q <= 1) /\
    (1 - x - p_death self < 0 ->
     forall k : nat, (3 <= k <= 5)%nat ->
       exists q, cell !! k = Some (Fin q) /\ q < 0).
Proof.
  intros Hc Hn Ht Hlim Hg Hi Hj.
  split.
  { destruct (p_good_outcome_no_reperfusion_range self) as (H1 & H2 & _).
    specialize (H2 Hn). lra. }
  split.
  { destruct (p_good_outcome_ais_no_lvo_range limit self ts Hc Hn Hlim)
      as (out & Hout & H).
    exists out. split; [exact Hout|]. intros k q Hk _.
    destruct (H k q Hk) as (v & Hv & H0 & H1). exists v. split; [exact Hv|lra]. }
  split.
  { destruct (p_good_outcome_post_evt_success_unit self t) as [H0 H1];
      [lra|exact Ht|]. lra. }
  split.
  { intros k r Hk. destruct add_uncertainty.
    - destruct (constructed_score_range self Hc) as [Hs0 _].
      destruct (prob_LVO_given_AIS_uncertain self n g Hg Hs0)
        as (_ & _ & _ & H & _).
      destruct (H k r Hk) as (y & -> & Hy). exists y. split; [reflexivity|].
      pose proof (logistic_range
                    (Q2R (- -3.6526 - 0.4141 * score self))) as Hl.
      pose proof (logistic_range
                    (Q2R (- -2.2067 - 0.6925 * score self))) as Hu.
      unfold p_lvo_logistic_helper in Hy. lra.
    - destruct (prob_LVO_given_AIS_point self n g) as (Hpt & _ & Hr).
      rewrite Hpt in Hk. cbn [fst] in Hk.
      apply lookup_replicate in Hk as [-> _].
      eexists. split; [reflexivity|]. lra. }
  destruct (break_up_lookup self p i j row (Fin x) Hi Hj)
    as (row' & Hr & _ & Hcell).
  exists row', (break_up_cell self (Fin x)).
  split; [exact Hr|]. split; [exact Hcell|].
  destruct (break_up_cell_range self x) as (_ & Hin & Hneg).
  split; [exact Hin|exact Hneg].
Qed.

Lemma severity_probabilities_range_witness :
  exists self out v,
    NIHSS_init 10 = Ok self /\
    0 <= p_good_outcome_no_reperfusion self /\
    p_good_outcome_no_reperfusion self <= 1 /\
    p_good_outcome_ais_no_lvo 270 self [Fin 60] = Ok out /\
    out !! 0%nat = Some (Fin v) /\ 0 <= v /\ v <= 1.
Proof.
  destruct (NIHSS_init 10) as [self|] eqn:E; [|discriminate E].
  assert (Hc : constructed self) by (right; exists 10; exact E).
  assert (Hn : 1 <= NIHSS self) by exact (NIHSS_init_NIHSS_ge_1 10 self E).
  assert (Ht : 0 <= 60) by (vm_compute; congruence).
  assert (Hl : 270 <= 667) by (vm_compute; congruence).
  assert (Hg : unit_rng (fun _ => (1 / 2)%R)) by (intros k; lra).
  destruct (severity_probabilities_range 270 self 60 [Fin 60] 1 false
              (fun _ => (1 / 2)%R) [[Fin 0.5]] 0 0 [Fin 0.5] 0.5
              Hc Hn Ht Hl Hg eq_refl eq_refl)
    as ((H0 & H1) & (out & Hout & Hv) & _).
  destruct (Hv 0%nat 60 eq_refl Ht) as (v & Hv0 & Hv1 & Hv2).
  exists self, out, v. split; [reflexivity|]. auto 10.
Defined.

(** C2 (counterexample).  The RACE score 0 is accepted; its probability of a
    good outcome without reperfusion is 0.9607, a number in [0, 1]; the cell
    of the state tensor built from it holds a negative entry for mRS 3.  The
    RACE score 0.1 is accepted as well, and its probability of a good
    outcome without reperfusion exceeds 1.  Both hold in binary64 too. *)
Lemma severity_probability_out_of_range :
  (exists self cell v,
     RACE_init 0 = Ok self /\
     p_good_outcome_no_reperfusion self == 0.9607 /\
     break_up_ais_patients self [[Fin (p_good_outcome_no_reperfusion self)]]
       !! 0%nat = Some [cell] /\
     cell !! States.MRS_3 = Some (Fin v) /\ v < 0) /\
  (exists self,
     RACE_init 0.1 = Ok self /\ 1 < p_good_outcome_no_reperfusion self) /\
  (exists self v,
     B64.RACE_init 0 = Ok self /\
     B64.p_good_outcome_no_reperfusion (B64.NIHSS self)
     = 0.96070000000000011%float /\
     B64.break_up_cell (B64.NIHSS self)
       (B64.p_good_outcome_no_reperfusion (B64.NIHSS self))
       !! States.MRS_3 = Some v /\
     PrimFloat.ltb v 0 = true) /\
  (exists self,
     B64.RACE_init 0.1 = Ok self /\
     PrimFloat.ltb 1 (B64.p_good_outcome_no_reperfusion (B64.NIHSS self))
     = true).
Proof.
  split; [|split; [|split]].
  - eexists _, _, _. split; [reflexivity|]. split; [reflexivity|].
    split; [reflexivity|]. split; [reflexivity|]. vm_compute. reflexivity.
  - eexists. split; [reflexivity|]. vm_compute. reflexivity.
  - eexists _, _. split; [vm_compute; reflexivity|].
    split; [vm_compute; reflexivity|]. split; vm_compute; reflexivity.
  - eexists. split; vm_compute; reflexivity.
Qed.



(** ** Travel times and the views on the hospitals *)

Section TravelTimes.

Context {Patient : Type}.
Variable float_of_str : string -> option npfloat.

Lemma py_float_raises (v : pyval) (e : exn) :
  py_float float_of_str v = Raise e ->
  e = ValueError \/ e = TypeError \/ e = OverflowError.
Proof.
  destruct v as [x|z|s|]; simpl.
  - discriminate.
  - destruct (_ <=? _)%Z; [intros [= <-]; auto|discriminate].
  - destruct (float_of_str s); [discriminate|intros [= <-]; auto].
  - intros [= <-]. auto.
Qed.

Lemma set_time_accepted (times : gmap string pyval) (c : sc.StrokeCenter) :
  (forall v, times !! sc.str (sc.center_id c) = Some v ->
     accepted float_of_str v) ->
  set_time float_of_str times c
  = Ok (sc.mkCenter (sc.center_id c) (sc.center_type c)
          (assigned_time float_of_str times c)).
Proof.
  intros Hacc. unfold set_time, assigned_time.
  destruct (times !! sc.str (sc.center_id c)) as [v|]; [|reflexivity].
  specialize (Hacc v eq_refl).
  destruct (py_float float_of_str v) as [x|e] eqn:E; [reflexivity|].
  rewrite (Hacc e E). reflexivity.
Qed.


Lemma set_time_frame (times : gmap string pyval) (c c' : sc.StrokeCenter) :
  set_time float_of_str times c = Ok c' ->
  sc.center_id c' = sc.center_id c /\ sc.center_type c' = sc.center_type c.
Proof.
  unfold set_time.
  destruct (times !! sc.str (sc.center_id c)) as [v|].
  - destruct (py_float float_of_str v) as [x|e]; [|destruct e];
      intros [= <-]; auto.
  - intros [= <-]. auto.
Qed.

Lemma set_times_loop_accepted (times : gmap string pyval)
    (cs : list sc.StrokeCenter) :
  (forall c v, c ∈ cs -> times !! sc.str (sc.center_id c) = Some v ->
     accepted float_of_str v) ->
  set_times_loop float_of_str times cs
  = ((fun c => sc.mkCenter (sc.center_id c) (sc.center_type c)
                 (assigned_time float_of_str times c)) <$> cs, None).
Proof.
  induction cs as [|c cs IH]; intros Hacc; [reflexivity|].
  simpl. rewrite set_time_accepted.
  - rewrite IH; [reflexivity|].
    intros c' v Hc'. apply Hacc. now right.
  - intros v. apply Hacc. now left.
Qed.


Lemma set_times_loop_frame (times : gmap string pyval)
    (cs : list sc.StrokeCenter) :
  Forall2 (fun c c' => sc.center_id c' = sc.center_id c /\
                       sc.center_type c' = sc.center_type c)
    cs (set_times_loop float_of_str times cs).1.
Proof.
  induction cs as [|c cs IH]; [constructor|].
  simpl. destruct (set_time float_of_str times c) as [c'|e'] eqn:E.
  - destruct (set_times_loop float_of_str times cs) as [rest e''].
    simpl in *. constructor; [|exact IH].
    apply (set_time_frame _ _ _ E).
  - simpl. apply Forall2_same_length_lookup_2; [reflexivity|].
    intros i x y Hx Hy. rewrite Hx in Hy. injection Hy as <-. auto.
Qed.

Lemma set_times_loop_None_iff (times : gmap string pyval)
    (cs : list sc.StrokeCenter) :
  (set_times_loop float_of_str times cs).2 = None <->
  forall c v, c ∈ cs -> times !! sc.str (sc.center_id c) = Some v ->
    accepted float_of_str v.
Proof.
  split.
  - intros Hnone c v Hc Hv e' He'.
    destruct (py_float_raises v e' He') as [-> | Hbad]; [reflexivity|].
    exfalso.
    assert (Hr : set_time float_of_str times c = Raise e').
    { unfold set_time. rewrite Hv, He'.
      destruct Hbad as [-> | ->]; reflexivity. }
    induction cs as [|c0 cs IH].
    + apply elem_of_nil in Hc. exact Hc.
    + simpl in Hnone. apply elem_of_cons in Hc as [<-|Hc].
      * rewrite Hr in Hnone. discriminate.
      * destruct (set_time float_of_str times c0); [|discriminate].
        destruct (set_times_loop float_of_str times cs) as [rest e''].
        apply (IH Hnone Hc).
  - intros Hacc. rewrite (set_times_loop_accepted _ _ Hacc). reflexivity.
Qed.




(** The scenario of a lookup that holds the string N/A for hospital 7 and
    nothing for hospital B: both are left with NaN and out of
    [hospitals]. *)
Example set_times_not_available :
  let out :=
    set_times
      (fun s : string => if String.eqb s "12.5" then Some (Fin 12.5) else None)
      (StrokeModel_init tt
         [sc.mkCenter (sc.IdInt 7) sc.PRIMARY (Fin 3);
          sc.mkCenter (sc.IdStr "B") sc.COMPREHENSIVE (Fin 4);
          sc.mkCenter (sc.IdStr "C") sc.COMPREHENSIVE (Fin 5)] None)
      {[ "7" := PyStr "N/A"; "C" := PyStr "12.5" ]} in
  out.2 = None /\
  sc.time <$> _hospitals out.1 = [NaN; NaN; Fin 12.5] /\
  hospitals out.1 = [sc.mkCenter (sc.IdStr "C") sc.COMPREHENSIVE (Fin 12.5)] /\
  primaries out.1 = [] /\
  comprehensives out.1
  = [sc.mkCenter (sc.IdStr "C") sc.COMPREHENSIVE (Fin 12.5)].
Proof. repeat split; vm_compute; reflexivity. Qed.

End TravelTimes.


(** X8.  Whether [set_times] completes or not, the patient, the threshold
    and the number, order, identifiers and centre types of the hospitals
    are unchanged; only travel times are replaced. *)
Theorem set_times_frame {Patient : Type}
    (float_of_str : string -> option npfloat)
    (self : StrokeModel Patient) (times : gmap string pyval) :
  let out := set_times float_of_str self times in
  _patient out.1 = _patient self /\
  _threshold_ICER out.1 = _threshold_ICER self /\
  length (_hospitals out.1) = length (_hospitals self) /\
  forall (i : nat) (c : sc.StrokeCenter), _hospitals self !! i = Some c ->
    exists c',
      _hospitals out.1 !! i = Some c' /\
      sc.center_id c' = sc.center_id c /\
      sc.center_type c' = sc.center_type c.
Proof.
  intros out. subst out. unfold set_times.
  pose proof (set_times_loop_frame float_of_str times (_hospitals self)) as H.
  destruct (set_times_loop float_of_str times (_hospitals self)) as [hs e].
  cbn [fst snd _hospitals _patient _threshold_ICER] in *.
  split; [reflexivity|]. split; [reflexivity|].
  split; [symmetry; apply (Forall2_length _ _ _ H)|].
  intros i c Hc.
  destruct (Forall2_lookup_l _ _ _ _ _ H Hc) as (c' & Hc' & Hid & Hty).
  exists c'. auto.
Qed.

(** X9.  The three views: [hospitals] holds the hospitals with a known
    travel time, [primaries] and [comprehensives] those of them with the
    respective centre type; no hospital is in both, and each view keeps the
    order of the list it filters. *)
Theorem views_spec {Patient : Type} (self : StrokeModel Patient)
    (x : sc.StrokeCenter) :
  (x ∈ hospitals self <-> x ∈ _hospitals self /\ sc.time x <> NaN) /\
  (x ∈ primaries self <->
     x ∈ hospitals self /\ sc.center_type x = sc.PRIMARY) /\
  (x ∈ comprehensives self <->
     x ∈ hospitals self /\ sc.center_type x = sc.COMPREHENSIVE) /\
  ~ (x ∈ primaries self /\ x ∈ comprehensives self) /\
  sublist (hospitals self) (_hospitals self) /\
  sublist (primaries self) (hospitals self) /\
  sublist (comprehensives self) (hospitals self).
Proof.
  assert (Hnan : np_isnan (sc.time x) = false <-> sc.time x <> NaN).
  { destruct (sc.time x); simpl; split; congruence. }
  unfold primaries, comprehensives, hospitals.
  rewrite !list_elem_of_filter, Hnan.
  split; [tauto|]. split; [tauto|]. split; [tauto|].
  split; [intros [[? _] [? _]]; congruence|].
  repeat split; apply sublist_filter.
Qed.

(** X10.  A call of [set_times] that completes overwrites every travel
    time: whatever an earlier call with another lookup has left on the
    model, completed or not, the result is the same as on the original
    model. *)
Theorem set_times_overwrites {Patient : Type}
    (float_of_str : string -> option npfloat)
    (self : StrokeModel Patient) (t1 t2 : gmap string pyval) :
  (set_times float_of_str self t2).2 = None ->
  set_times float_of_str (set_times float_of_str self t1).1 t2
  = set_times float_of_str self t2.
Proof.
  intros Hdone.
  assert (Hacc : forall c v, c ∈ _hospitals self ->
                   t2 !! sc.str (sc.center_id c) = Some v ->
                   accepted float_of_str v).
  { apply set_times_loop_None_iff. unfold set_times in Hdone.
    destruct (set_times_loop float_of_str t2 (_hospitals self)).
    exact Hdone. }
  pose proof (set_times_loop_frame float_of_str t1 (_hospitals self)) as Hf.
  unfold set_times.
  destruct (set_times_loop float_of_str t1 (_hospitals self)) as [hs1 e1].
  cbn [fst snd _hospitals _patient _threshold_ICER] in *.
  rewrite (set_times_loop_accepted float_of_str t2 (_hospitals self) Hacc).
  rewrite (set_times_loop_accepted float_of_str t2 hs1).
  - f_equal. f_equal. apply list_eq. intros i. rewrite !list_lookup_fmap.
    destruct (_hospitals self !! i) as [c|] eqn:Ec.
    + destruct (Forall2_lookup_l _ _ _ _ _ Hf Ec) as (c' & -> & Hid & Hty).
      simpl. unfold assigned_time. rewrite Hid, Hty. reflexivity.
    + apply lookup_ge_None in Ec.
      rewrite (Forall2_length _ _ _ Hf) in Ec.
      apply lookup_ge_None in Ec. rewrite Ec. reflexivity.
  - intros c' v Hc' Hv.
    apply list_elem_of_lookup in Hc' as [i Hi].
    destruct (Forall2_lookup_r _ _ _ _ _ Hf Hi) as (c & Hc & Hid & _).
    apply (Hacc c v); [apply list_elem_of_lookup; eauto|].
    rewrite <- Hid. exact Hv.
Qed.

Lemma set_times_overwrites_witness :
  set_times (fun _ : string => None)
    (set_times (fun _ : string => None)
       (StrokeModel_init tt [sc.mkCenter (sc.IdInt 7) sc.PRIMARY NaN] None)
       {[ "7" := PyInt 25 ]}).1 ∅
  = set_times (fun _ : string => None)
      (StrokeModel_init tt [sc.mkCenter (sc.IdInt 7) sc.PRIMARY NaN] None)
      ∅.
Proof.
  apply (set_times_overwrites (fun _ : string => None)
           (StrokeModel_init tt [sc.mkCenter (sc.IdInt 7) sc.PRIMARY NaN] None)
           {[ "7" := PyInt 25 ]} ∅).
  vm_compute. reflexivity.
Defined.

(** ** The order on binary64 numbers and the maximum of a column *)








Lemma is_nan_false (x : float) :
  PrimFloat.is_nan x = false <-> Prim2SF x <> S754_nan.
Proof.
  unfold PrimFloat.is_nan. rewrite negb_false_iff, FloatAxioms.eqb_spec. unfold SFeqb.
  destruct (Prim2SF x) as [s|s| |s m e]; simpl.
  - split; [discriminate|reflexivity].
  - destruct s; split; (discriminate || reflexivity).
  - split; [discriminate|congruence].
  - destruct s; rewrite Z.compare_refl;
      change (Pos.compare_cont Eq m m) with (Pos.compare m m);
      rewrite Pos.compare_refl; split; (discriminate || reflexivity).
Qed.

Lemma is_nan_abs (x : float) :
  PrimFloat.is_nan (PrimFloat.abs x) = PrimFloat.is_nan x.
Proof.
  destruct (PrimFloat.is_nan x) eqn:E.
  - destruct (PrimFloat.is_nan (PrimFloat.abs x)) eqn:E'; [reflexivity|].
    apply is_nan_false in E'. rewrite FloatAxioms.abs_spec in E'.
    assert (Hx : Prim2SF x <> S754_nan).
    { intros H. rewrite H in E'. apply E'. reflexivity. }
    apply is_nan_false in Hx. congruence.
  - apply is_nan_false. apply is_nan_false in E. rewrite FloatAxioms.abs_spec.
    destruct (Prim2SF x); simpl; congruence.
Qed.








(** ** The convergence test *)

Section Convergence.

Context {Center Results : Type}.
Variable str_center : Center -> string.
Variable counts_by_center : Results -> list (Center * Z).

Lemma cbc_lookup_inv (l : list (Center * Z)) (d : gmap string Z)
    (k : string) (z : Z) :
  foldl (fun d kv => <[str_center kv.1 := kv.2]> d) d l !! k = Some z ->
  (exists c, (c, z) ∈ l /\ str_center c = k) \/ d !! k = Some z.
Proof.
  induction l as [|[c' z'] l IH] using rev_ind; [now right|].
  rewrite foldl_app. simpl. intros H.
  apply lookup_insert_Some in H as [[<- <-]|[_ H]].
  - left. exists c'. split; [|reflexivity].
    apply elem_of_app. right. apply list_elem_of_singleton. reflexivity.
  - destruct (IH H) as [(c & Hc & Hk)|Hd]; [|now right].
    left. exists c. split; [|exact Hk]. apply elem_of_app. now left.
Qed.

Lemma cbc_lookup_is_Some (l : list (Center * Z)) (d : gmap string Z)
    (c : Center) (z : Z) :
  (c, z) ∈ l ->
  is_Some (foldl (fun d kv => <[str_center kv.1 := kv.2]> d) d l
             !! str_center c).
Proof.
  induction l as [|[c' z'] l IH] using rev_ind.
  - intros H. apply elem_of_nil in H. contradiction.
  - rewrite foldl_app. simpl. intros H.
    apply lookup_insert_is_Some.
    apply elem_of_app in H as [H|H].
    + destruct (decide (str_center c' = str_center c)); [now left|].
      right. split; [assumption|]. apply IH, H.
    + apply list_elem_of_singleton in H. injection H as -> ->. now left.
Qed.

Lemma cbc_lookup_NoDup (l : list (Center * Z)) (d : gmap string Z)
    (c : Center) (z : Z) :
  NoDup ((fun kv => str_center kv.1) <$> l) -> (c, z) ∈ l ->
  foldl (fun d kv => <[str_center kv.1 := kv.2]> d) d l !! str_center c
  = Some z.
Proof.
  induction l as [|[c' z'] l IH] using rev_ind.
  - intros _ H. apply elem_of_nil in H. contradiction.
  - rewrite fmap_app, foldl_app. simpl. intros Hnd H.
    apply NoDup_app in Hnd as (Hl & Hdis & _).
    apply elem_of_app in H as [H|H].
    + rewrite lookup_insert_ne; [apply IH; assumption|].
      intros E. apply (Hdis (str_center c)).
      * apply list_elem_of_fmap. exists (c, z). split; [reflexivity|exact H].
      * rewrite E. apply list_elem_of_singleton. reflexivity.
    + apply list_elem_of_singleton in H. injection H as -> ->.
      apply lookup_insert_eq.
Qed.

(** The table does not depend on the previous one. *)
Lemma _check_convergence_snd (markov_results : Results) (n_sim : Z)
    (old_df_cbc : option (gmap string float)) :
  (_check_convergence str_center counts_by_center markov_results n_sim
     old_df_cbc).2
  = (_check_convergence str_center counts_by_center markov_results n_sim
       None).2.
Proof. unfold _check_convergence. destruct old_df_cbc; reflexivity. Qed.

(** X11.  The frequency table of [_check_convergence]: it does not depend
    on the previous table, its keys are the names of the centres counted,
    the value under a name is the count of a centre of that name divided, in
    binary64, by [n_sim], and when the names are pairwise distinct every
    centre finds its own count. *)
Theorem _check_convergence_table (markov_results : Results) (n_sim : Z)
    (old_df_cbc : option (gmap string float)) :
  let first := _check_convergence str_center counts_by_center
                 markov_results n_sim None in
  let this := _check_convergence str_center counts_by_center
                markov_results n_sim old_df_cbc in
  let share := fun count : Z =>
                 PrimFloat.div (of_int count) (of_int n_sim) in
  this.2 = first.2 /\
  (forall k v, this.2 !! k = Some v ->
     exists c count,
       (c, count) ∈ counts_by_center markov_results /\
       str_center c = k /\ v = share count) /\
  (forall c count, (c, count) ∈ counts_by_center markov_results ->
     is_Some (this.2 !! str_center c)) /\
  (NoDup ((fun kv => str_center kv.1) <$> counts_by_center markov_results) ->
   forall c count, (c, count) ∈ counts_by_center markov_results ->
     this.2 !! str_center c = Some (share count)).
Proof.
  intros first this share.
  assert (Ht : this.2 = first.2) by apply _check_convergence_snd.
  split; [exact Ht|]. rewrite Ht.
  subst first. unfold _check_convergence. cbn [snd].
  split; [|split].
  - intros k v Hv. rewrite lookup_fmap in Hv.
    destruct (foldl _ _ _ !! k) as [z|] eqn:E; [|discriminate].
    injection Hv as <-.
    apply cbc_lookup_inv in E as [(c & Hc & Hk)|E].
    + exists c, z. auto.
    + rewrite lookup_empty in E. discriminate.
  - intros c count Hc. rewrite lookup_fmap.
    destruct (cbc_lookup_is_Some _ ∅ c count Hc) as [z ->]. simpl. eauto.
  - intros Hnd c count Hc.
    rewrite lookup_fmap, (cbc_lookup_NoDup _ ∅ c count Hnd Hc). reflexivity.
Qed.


End Convergence.

(** Two hospitals counted 2525 and 2475 times out of 5000 against a previous
    table of 0.5 and 0.5, a largest difference of 0.005: convergence.  With
    2600 and 2400, a difference of 0.02: none.  Two tables without a common
    hospital do not converge either. *)
Example _check_convergence_0005 :
  (_check_convergence (fun c : string => c)
     (fun r : list (string * Z) => r)
     [("A", 2525%Z); ("B", 2475%Z)] 5000
     (Some {[ "A" := 0.5%float; "B" := 0.5%float ]})).1 = true.
Proof. vm_compute. reflexivity. Qed.

Example _check_convergence_002 :
  (_check_convergence (fun c : string => c)
     (fun r : list (string * Z) => r)
     [("A", 2600%Z); ("B", 2400%Z)] 5000
     (Some {[ "A" := 0.5%float; "B" := 0.5%float ]})).1 = false.
Proof. vm_compute. reflexivity. Qed.

Example _check_convergence_disjoint :
  (_check_convergence (fun c : string => c)
     (fun r : list (string * Z) => r)
     [("A", 2500%Z)] 5000 (Some {[ "C" := 0.5%float ]})).1 = false.
Proof. vm_compute. reflexivity. Qed.

(** The comparison is made on computed numbers: the frequencies 0.51 and
    0.5 differ by 0.010000000000000009 in binary64, which is above the
    threshold. *)
Example _check_convergence_boundary :
  PrimFloat.div (of_int 4080) (of_int 8000) = 0.51%float /\
  PrimFloat.sub 0.51 0.5 = 0.010000000000000009%float /\
  (_check_convergence (fun c : string => c)
     (fun r : list (string * Z) => r)
     [("A", 4080%Z)] 8000 (Some {[ "A" := 0.5%float ]})).1 = false.
Proof. repeat split; vm_compute; reflexivity. Qed.

(** ** The simulation loop *)

Section RunNew.

Context {Patient Center Results Markov Times World : Type}.
Variable str_center : Center -> string.
Variable counts_by_center : Results -> list (Center * Z).
Variable inflate : Z -> World -> World.
Variable simulate :
  Patient -> list sc.StrokeCenter -> Z -> bool -> bool -> bool ->
  World -> (Results * Markov * Times) * World.

Variable self : StrokeModel Patient.
Variables add_time_uncertainty add_lvo_uncertainty fix_performance : bool.

(** One turn of the loop, with the [break] made explicit. *)
Lemma run_new_loop_cons (c : Z) (cs : list Z)
    (st : loop_state (Results := Results) (Markov := Markov) (Times := Times)
            (World := World)) :
  let r := simulate (_patient self) (hospitals self) (n_sim st)
             add_time_uncertainty add_lvo_uncertainty fix_performance
             (world st) in
  let cv := _check_convergence str_center counts_by_center r.1.1.1 (n_sim st)
              (old_df_cbc st) in
  let n_sim' := (n_sim st + 1000 * (c + 1))%Z in
  let it := mkIteration (n_sim st) cv.1 r.1 in
  run_new_loop str_center counts_by_center simulate self
    add_time_uncertainty add_lvo_uncertainty fix_performance (c :: cs) st
  = if cv.1
    then mkLoop n_sim' (Some cv.2) (Some r.1) (executed st ++ [it])
           (stdout st) r.2
    else run_new_loop str_center counts_by_center simulate self
           add_time_uncertainty add_lvo_uncertainty fix_performance cs
           (mkLoop n_sim' (Some cv.2) (Some r.1) (executed st ++ [it])
              (stdout st ++ [n_sim']) r.2).
Proof.
  simpl. destruct (simulate _ _ _ _ _ _ _) as [out w]. simpl.
  destruct (_check_convergence _ _ _ _ _) as [cv df]. simpl.
  destruct cv; reflexivity.
Qed.









Lemma run_new_loop_prefix (cs : list Z)
    (st : loop_state (Results := Results) (Markov := Markov) (Times := Times)
            (World := World)) :
  executed st `prefix_of`
  executed (run_new_loop str_center counts_by_center simulate self
              add_time_uncertainty add_lvo_uncertainty fix_performance cs st).
Proof.
  revert st. induction cs as [|c cs IH]; intros st; [reflexivity|].
  rewrite run_new_loop_cons. cbv zeta.
  destruct (_check_convergence _ _ _ _ _).1.
  - cbn [executed]. apply prefix_app_r. reflexivity.
  - etransitivity; [|apply IH]. cbn [executed].
    apply prefix_app_r. reflexivity.
Qed.

(** X13.  The first iteration of [run_new] computes what [run] computes
    for 5000 samples: the sample size the caller passes to [run_new] has no
    influence on any iteration. *)
Theorem run_new_first_iteration (n n' : Z) (w : World) :
  run_new str_center counts_by_center inflate simulate self n
    add_time_uncertainty add_lvo_uncertainty fix_performance w
  = run_new str_center counts_by_center inflate simulate self n'
      add_time_uncertainty add_lvo_uncertainty fix_performance w /\
  exists it : iteration,
    executed
      (run_new str_center counts_by_center inflate simulate self n
         add_time_uncertainty add_lvo_uncertainty fix_performance w).2
      !! 0%nat = Some it /\
    it_n_sim it = 5000%Z /\
    it_output it
    = (run inflate simulate self 5000
         add_time_uncertainty add_lvo_uncertainty fix_performance w).1.
Proof.
  split; [reflexivity|].
  unfold run_new, run. cbn [snd].
  change (seq 0 NRUN_MAX) with (0%nat :: seq 1 19).
  cbn [fmap list_fmap]. rewrite run_new_loop_cons. cbv zeta.
  cbn [n_sim world old_df_cbc executed stdout].
  set (r := simulate _ _ _ _ _ _ _).
  change (_check_convergence str_center counts_by_center r.1.1.1 5000 None).1
    with false. cbv iota.
  match goal with
  | |- context [run_new_loop _ _ _ _ _ _ _ ?cs ?st] =>
      destruct (run_new_loop_prefix cs st) as [rest Hrest]
  end.
  eexists. rewrite Hrest. cbn [executed app lookup list_lookup].
  split; [reflexivity|]. split; reflexivity.
Qed.

End RunNew.
